(** * deco: dev-time manifest builder and editor form bridge

    Shallow embedding of [src/dev.ts] (manifest differ, schema collector,
    component discoverer) and of the editor hook [useEditorOperations],
    followed by the properties of the specification that concern them. *)

From stdpp Require Import base option list strings sorting gmap pretty.
From Stdlib Require Import ZArith Lia Ascii.

Set Warnings "-register-all".

Open Scope Z_scope.
Open Scope list_scope.

(** ** JavaScript values and outcomes *)

(** The values a module export or a property bag can hold.  Numbers are
    restricted to the integers plus [NaN], which is all that truthiness
    needs to tell apart. *)
Inductive JsValue : Type :=
  | JUndefined
  | JNull
  | JBool (b : bool)
  | JNum (n : Z)
  | JNaN
  | JStr (s : string)
  | JArr (elems : list JsValue)
  | JObj (members : list (string * JsValue)).

(** [Boolean(v)], also the test behind [!v] and [v || w]. *)
Definition truthy (v : JsValue) : bool :=
  match v with
  | JUndefined | JNull | JNaN => false
  | JBool b => b
  | JNum n => negb (Z.eqb n 0)
  | JStr s => negb (String.eqb s EmptyString)
  | JArr _ | JObj _ => true
  end.

(** What a [catch] can tell apart: [Deno.errors.NotFound], a [TypeError],
    and any other failure (carrying its message). *)
Inductive JsError : Type :=
  | NotFound
  | TypeError
  | Failure (msg : string).

(** Outcome of code that may throw, or of a promise that settles. *)
Inductive Result (A : Type) : Type :=
  | Ok (a : A)
  | Throw (e : JsError).
Arguments Ok {A} a.
Arguments Throw {A} e.

(** ** The development entry point ([src/dev.ts]) *)

Module Dev.

Record SchemaMap : Type := mkSchemaMap {
  component : string;
  schema : JsValue
}.

Record DevManifest : Type := mkDevManifest {
  routes : list string;
  islands : list string;
  components : list string;
  schemas : list SchemaMap
}.

(** *** Manifest differ *)

(** [x !== y] on the result of indexing a string array: [None] is the
    [undefined] of an index past the end. *)
Definition strict_neq (x y : option string) : bool := bool_decide (x ≠ y).

(** The [for] loop of [arraysEqual], started at index [i] with [n]
    iterations left. *)
Fixpoint arraysEqual_loop (a b : list string) (i n : nat) : bool :=
  match n with
  | O => true
  | S n' =>
      if strict_neq (a !! i) (b !! i) then false
      else arraysEqual_loop a b (S i) n'
  end.

Definition arraysEqual (a b : list string) : bool :=
  if negb (Nat.eqb (length a) (length b)) then false
  else arraysEqual_loop a b 0 (length a).

(** [manifestChanged] of [dev], for the new and the current manifest. *)
Definition manifestChanged (newManifest currentManifest : DevManifest) : bool :=
  negb (arraysEqual (routes newManifest) (routes currentManifest))
  || negb (arraysEqual (islands newManifest) (islands currentManifest))
  || negb (arraysEqual (components newManifest) (components currentManifest)).

(** Two path lists differ: in length, or in the value they hold at some
    index (a different order shows at such an index). *)
Definition lists_differ (a b : list string) : Prop :=
  length a ≠ length b ∨
  ∃ (i : nat) (x y : string), a !! i = Some x ∧ b !! i = Some y ∧ x ≠ y.

(** *** Schema collector *)

(** The [type] argument of [mapComponentToSchemaMap]. *)
Inductive ComponentType : Type :=
  | TIslands
  | TComponents.

(** Namespace object of a loaded module, reduced to its optional export
    named [schema]. *)
Record ModuleNs : Type := mkModuleNs {
  schema_export : option JsValue
}.

(** [componentModule.schema]: an absent export reads as [undefined]. *)
Definition module_schema (m : ModuleNs) : JsValue :=
  default JUndefined (schema_export m).

(** What the collector takes from outside this file: the name helper of
    [./utils/component.ts] and the dynamic [import] of the module at
    [join(directory, type, componentName)], which may reject. *)
Class ModuleLoader : Type := mkModuleLoader {
  componentNameFromPath : string → string;
  importModule : string → ComponentType → string → Result ModuleNs
}.

Section SchemaCollector.
Context `{ModuleLoader}.
Variable directory : string.

(** Settled outcome of the promise [mapComponentToSchemaMap] returns;
    [Ok None] is its [return;] (the promise resolves to [undefined]). *)
Definition mapComponentToSchemaMap (componentName : string)
    (type : ComponentType) : Result (option SchemaMap) :=
  match importModule directory type componentName with
  | Throw e => Throw e
  | Ok componentModule =>
      let schema := module_schema componentModule in
      if negb (truthy schema) then Ok None
      else Ok (Some {| component := componentNameFromPath componentName;
                       schema := schema |})
  end.

(** The array [componentSchemasPromises] after the two [forEach]. *)
Definition componentSchemasPromises (islands components : list string)
    : list (Result (option SchemaMap)) :=
  let islandComponents : gset string := list_to_set islands in
  let promises :=
    foldl (λ acc islandName,
             acc ++ [mapComponentToSchemaMap islandName TIslands])
          [] islands in
  foldl (λ acc componentName,
           if decide (componentName ∈ islandComponents) then acc
           else acc ++ [mapComponentToSchemaMap componentName TComponents])
        promises components.
End SchemaCollector.

(** The module loads in the order the two [forEach] issue them: every
    island, then every component that is not also an island. *)
Definition load_requests (islands components : list string)
    : list (ComponentType * string) :=
  map (pair TIslands) islands
  ++ map (pair TComponents) (filter (λ name, name ∉ islands) components).

(** The entry a load contributes to the result, if any. *)
Definition entry_of `{ModuleLoader} (directory : string)
    (request : ComponentType * string) : option SchemaMap :=
  match mapComponentToSchemaMap directory request.2 request.1 with
  | Ok (Some entry) => Some entry
  | _ => None
  end.



(** Every one of [n] promises settles at some point of [order]. *)
Definition complete_order (n : nat) (order : list nat) : Prop :=
  ∀ i : nat, (i < n)%nat → i ∈ order.

(** [Promise.all]: the promises settle in the order [order] lists their
    indices (the completion order); a fulfilled one stores its value at its
    own index, the first rejected one rejects the whole. *)
Fixpoint promiseAll_settle {A} (ps : list (Result A)) (order : list nat)
    (values : list (option A)) : Result (list (option A)) :=
  match order with
  | [] => Ok values
  | i :: rest =>
      match ps !! i with
      | Some (Ok v) => promiseAll_settle ps rest (<[i := Some v]> values)
      | Some (Throw e) => Throw e
      | None => promiseAll_settle ps rest values
      end
  end.

(** The result array of [Promise.all] once the promises listed in
    [finished] have been fulfilled with the values [vs]. *)
Definition filled {A} (finished : list nat) (vs : list A) : list (option A) :=
  imap (λ i v, if decide (i ∈ finished) then Some v else None) vs.

(** [None]: some promise never settled, [Promise.all] stays pending. *)
Definition promiseAll {A} (ps : list (Result A)) (order : list nat)
    : option (Result (list A)) :=
  match promiseAll_settle ps order (replicate (length ps) None) with
  | Throw e => Some (Throw e)
  | Ok values =>
      match mapM id values with
      | Some vs => Some (Ok vs)
      | None => None
      end
  end.

Definition collectComponentsSchemas `{ModuleLoader}
    (islands components : list string) (directory : string)
    (order : list nat) : option (Result (list SchemaMap)) :=
  match promiseAll (componentSchemasPromises directory islands components) order with
  | None => None
  | Some (Throw e) => Some (Throw e)
  | Some (Ok componentsSchemas) => Some (Ok (omap id componentsSchemas))
  end.

(** A small project to run the collector on: [/Hero.tsx] exports a schema,
    [/Zero.tsx] exports the number zero as its schema, [/Broken.tsx] fails
    to load, any other module exports no schema.  Names are kept as they
    are. *)
Definition sample_loader : ModuleLoader :=
  {| componentNameFromPath := λ componentName, componentName;
     importModule := λ _ _ componentName,
       if String.eqb componentName "/Broken.tsx" then Throw (Failure "syntax")
       else if String.eqb componentName "/Hero.tsx" then
         Ok {| schema_export := Some (JObj [("title", JStr "string")]) |}
       else if String.eqb componentName "/Zero.tsx" then
         Ok {| schema_export := Some (JNum 0) |}
       else Ok {| schema_export := None |} |}.

(** *** Component discoverer *)

(** An entry the directory walk yields. *)
Record WalkEntry : Type := mkWalkEntry {
  path : string;
  isFile : bool
}.

(** What one run of [collectComponents] observes of the file system: the
    outcome of iterating [Deno.readDir], the entries [walk] yields, and how
    the walk ends. *)
Record FsRun : Type := mkFsRun {
  readDir_outcome : Result unit;
  walk_entries : list WalkEntry;
  walk_outcome : Result unit
}.

(** What the file takes from the path library: [join] for two segments,
    which joins them with the separator of the platform and normalises the
    result, and [toFileUrl(p).href] for an absolute path [p]. *)
Class UrlApi : Type := mkUrlApi {
  join : string → string → string;
  toFileUrl : string → string
}.

(** [s.substring(n)] *)
Definition substring_from (n : nat) (s : string) : string :=
  String.substring n (String.length s - n) s.

(** [components.sort()]: default order, by code units. *)
Definition sort (l : list string) : list string := merge_sort String.le l.

Section Discoverer.
Context `{UrlApi}.

(** The body of the second [for await]: push the relative URL of a file
    entry. *)
Definition push_entry (componentsUrl : string) (components : list string)
    (entry : WalkEntry) : list string :=
  if isFile entry then
    components ++
      [substring_from (String.length componentsUrl) (toFileUrl (path entry))]
  else components.

(** The [try] block: the list collected so far and the error thrown, if
    any. *)
Definition collect_try (componentsDir : string) (run : FsRun)
    : list string * option JsError :=
  let componentsUrl := toFileUrl componentsDir in
  match readDir_outcome run with
  | Throw err => ([], Some err)
  | Ok _ =>
      let components :=
        foldl (push_entry componentsUrl) [] (walk_entries run) in
      match walk_outcome run with
      | Throw err => (components, Some err)
      | Ok _ => (components, None)
      end
  end.

Definition collectComponents (dir : string) (run : FsRun)
    : Result (list string) :=
  let componentsDir := join dir "./components" in
  match collect_try componentsDir run with
  | (components, None) => Ok (sort components)
  | (components, Some NotFound) => Ok (sort components)
  | (_, Some err) => Throw err
  end.
End Discoverer.

(** The string [collectComponents] pushes for the path [p]. *)
Definition relative_url `{UrlApi} (componentsDir p : string) : string :=
  substring_from (String.length (toFileUrl componentsDir)) (toFileUrl p).

(** *** The file system behind a run *)

(** A directory tree: files, directories and symbolic links by name. *)
Inductive FsNode : Type :=
  | FsFile (name : string)
  | FsSymlink (name : string)
  | FsDir (name : string) (children : list FsNode).

Definition node_name (n : FsNode) : string :=
  match n with
  | FsFile name | FsSymlink name | FsDir name _ => name
  end.

(** The [exts] option handed to [walk]. *)
Definition exts : list string := ["tsx"; "jsx"; "ts"; "js"].

Definition ends_with (suffix s : string) : bool :=
  String.prefix (String.rev suffix) (String.rev s).

(** Modelled from the spec: the walk of the standard library keeps a file
    when its extension is one of [exts], that is when its path ends in a dot
    and one of them. *)
Definition has_ext (p : string) : bool :=
  existsb (λ ext, ends_with ("." +:+ ext) p) exts.

(** Modelled from the spec: the path the walk gives the entry [name] of
    the folder at [root], for a [root] in normal form that does not end in a
    separator. *)
Definition entry_path (root name : string) : string := root +:+ "/" +:+ name.

(** Modelled from the spec:
    [walk(root, {includeDirs: false, includeFiles: true, exts})] of the
    standard library over the listing of [root], depth first in listing
    order, links not followed, directories not yielded. *)
Fixpoint walk_node (root : string) (n : FsNode) : list WalkEntry :=
  match n with
  | FsFile name =>
      let p := entry_path root name in
      if has_ext p then [{| path := p; isFile := true |}] else []
  | FsSymlink _ => []
  | FsDir name children =>
      concat (map (walk_node (entry_path root name)) children)
  end.

Definition walk (root : string) (listing : list FsNode) : list WalkEntry :=
  concat (map (walk_node root) listing).

(** The name sequences, from the listing down, of the regular files below
    a node. *)
Fixpoint files_of (n : FsNode) : list (list string) :=
  match n with
  | FsFile name => [[name]]
  | FsSymlink _ => []
  | FsDir name children => map (cons name) (concat (map files_of children))
  end.

(** The path below a folder that a name sequence spells. *)
Fixpoint below (segments : list string) : string :=
  match segments with
  | [] => ""
  | name :: rest => "/" +:+ name +:+ below rest
  end.

Fixpoint has_slash (s : string) : bool :=
  match s with
  | EmptyString => false
  | String c rest => Ascii.eqb c "/"%char || has_slash rest
  end.

(** A name as a directory listing gives it: not empty, not one of the two
    dot entries, free of separators. *)
Definition plain_name (name : string) : Prop :=
  has_slash name = false ∧ name ≠ "" ∧ name ≠ "." ∧ name ≠ "..".

(** In a directory the names are plain and no two entries share one. *)
Fixpoint well_formed (n : FsNode) : Prop :=
  plain_name (node_name n) ∧
  match n with
  | FsDir _ children =>
      NoDup (map node_name children) ∧ foldr and True (map well_formed children)
  | _ => True
  end.

Definition well_formed_listing (listing : list FsNode) : Prop :=
  NoDup (map node_name listing) ∧ foldr and True (map well_formed listing).

(** Modelled from the spec: what [toFileUrl] does to a path below a
    folder.  The URL of the path is the URL of the folder followed by the
    names that lead to the file, each after a separator and each escaped by
    [escape]; escaping keeps two names apart and turns a name into a name. *)
Class UrlLaws (U : UrlApi) (escape : string → string) : Prop := mkUrlLaws {
  escape_inj : ∀ name1 name2 : string,
    escape name1 = escape name2 → name1 = name2;
  escape_plain : ∀ name : string, plain_name name → plain_name (escape name);
  toFileUrl_below : ∀ (root : string) (segments : list string),
    Forall plain_name segments →
    toFileUrl (root +:+ below segments)
    = toFileUrl root +:+ below (escape <$> segments)
}.

(** [b] without a leading [./]. *)
Definition strip_dot_slash (b : string) : string :=
  match b with
  | String "."%char (String "/"%char rest) => rest
  | _ => b
  end.

(** The path library where the separator is the slash, on the paths the
    examples use: [join] of a directory in normal form and a segment [name]
    or [./name], and the URL of a path that needs no escaping. *)
Definition plain_url : UrlApi :=
  {| join := λ a b,
       (if ends_with "/" a then a else a +:+ "/") +:+ strip_dot_slash b;
     toFileUrl := λ p, "file://" +:+ p |}.

(** A components folder to run the discoverer on. *)
Definition sample_listing : list FsNode :=
  [ FsFile "b.tsx"; FsFile "README.md"; FsSymlink "link.ts";
    FsDir "ui" [FsFile "Button.tsx"; FsFile "a.ts"; FsDir "empty" []];
    FsFile "a.tsx" ].

(** The entry the walk yields for the file a name sequence leads to. *)
Definition entry_at (root : string) (segments : list string) : WalkEntry :=
  {| path := root +:+ below segments; isFile := true |}.

(** The file a name sequence leads to passes the [exts] option. *)
Definition listed (root : string) (segments : list string) : Prop :=
  has_ext (root +:+ below segments) = true.

Global Instance listed_dec (root : string) (segments : list string) :
  Decision (listed root segments).
Proof. unfold listed. apply _. Defined.

(** State of the components folder when [collectComponents] runs. *)
Inductive Folder : Type :=
  | Missing
  | Unreadable (err : JsError)
  | Present (listing : list FsNode).

Definition run_on (componentsDir : string) (f : Folder) : FsRun :=
  match f with
  | Missing =>
      {| readDir_outcome := Throw NotFound; walk_entries := [];
         walk_outcome := Throw NotFound |}
  | Unreadable err =>
      {| readDir_outcome := Throw err; walk_entries := [];
         walk_outcome := Throw err |}
  | Present listing =>
      {| readDir_outcome := Ok tt; walk_entries := walk componentsDir listing;
         walk_outcome := Ok tt |}
  end.

(** *** [dev] *)

(** The effects of [dev] that outlive it. *)
Inductive DevEvent : Type :=
  | EvSetEnv (m : DevManifest)
  | EvGenerate (dir : string) (m : DevManifest)
  | EvOnListen
  | EvImport (entrypoint : string).

(** What [dev] meets outside: the previous manifest in the environment
    ([None] when the variable is unset or empty), the routes and islands
    [collect] finds, the components folder, the order in which the module
    loads complete, the outcome of [generate], what the listener does when it
    is called, and the outcome of importing the entry point.

    The variable is written by [dev] alone, as the text of a manifest; a
    world describes the runs in which, when set, it parses to one, and in
    which [base] gives a directory and an entry point. *)
Record DevWorld : Type := mkDevWorld {
  previous_manifest : option DevManifest;
  fresh_collect : Result (list string * list string);
  components_run : FsRun;
  completion_order : list nat;
  generate_outcome : Result unit;
  onListen_outcome : Result unit;
  import_outcome : Result unit
}.

(** [currentManifest] of [dev]: the previous manifest, or the empty one on
    a first run. *)
Definition current_manifest (w : DevWorld) : DevManifest :=
  match previous_manifest w with
  | Some m => m
  | None => {| islands := []; routes := []; components := []; schemas := [] |}
  end.

(** From [const manifestChanged] to the end of [dev]; [onListen] tells
    whether a listener was given. *)
Definition dev_boot (dir entrypoint : string) (onListen : bool)
    (w : DevWorld) (currentManifest newManifest : DevManifest)
    : list DevEvent * Result unit :=
  let changed := manifestChanged newManifest currentManifest in
  let generated := if changed then [EvGenerate dir newManifest] else [] in
  match (if changed then generate_outcome w else Ok tt) with
  | Throw e => (generated, Throw e)
  | Ok _ =>
      if onListen then
        match onListen_outcome w with
        | Throw e => (generated ++ [EvOnListen], Throw e)
        | Ok _ =>
            (generated ++ [EvOnListen; EvImport entrypoint], import_outcome w)
        end
      else (generated ++ [EvImport entrypoint], import_outcome w)
  end.

(** The events of a run and how it ends; [None]: it never ends.  [dir] and
    [entrypoint] are the directory and the entry point [dev] has derived from
    [base]. *)
Definition dev `{ModuleLoader} `{UrlApi} (dir entrypoint : string)
    (onListen : bool) (w : DevWorld)
    : list DevEvent * option (Result unit) :=
  let currentManifest := current_manifest w in
  match fresh_collect w with
  | Throw e => ([], Some (Throw e))
  | Ok (collected_routes, collected_islands) =>
      match collectComponents dir (components_run w) with
      | Throw e => ([], Some (Throw e))
      | Ok found =>
          let stored :=
            {| routes := collected_routes; islands := collected_islands;
               components := found; schemas := [] |} in
          match collectComponentsSchemas collected_islands found dir
                  (completion_order w) with
          | None => ([EvSetEnv stored], None)
          | Some (Throw e) => ([EvSetEnv stored], Some (Throw e))
          | Some (Ok collected_schemas) =>
              let newManifest :=
                {| routes := collected_routes; islands := collected_islands;
                   components := found; schemas := collected_schemas |} in
              let '(events, outcome) :=
                dev_boot dir entrypoint onListen w currentManifest newManifest in
              (EvSetEnv stored :: events, Some outcome)
          end
      end
  end.

(** How often [generate] runs in a trace. *)
Definition is_generate (ev : DevEvent) : bool :=
  match ev with
  | EvGenerate _ _ => true
  | _ => false
  end.

Definition generate_calls (events : list DevEvent) : nat :=
  length (List.filter is_generate events).

(** *** Templates and [generate] *)

(** The double quote and the line feed, as one-character strings. *)
Definition dq : string := String "034"%char EmptyString.
Definition nl : string := String "010"%char EmptyString.

(** [JSON.stringify], from the runtime. *)
Class JsonApi : Type := mkJsonApi {
  JSON_stringify : JsValue → string
}.

(** The three folders whose files the manifest imports. *)
Inductive Category : Type :=
  | CRoutes
  | CIslands
  | CComponents.

(** The name an import line binds: one, two or three dollar signs and the
    index in decimal. *)
Definition alias (c : Category) (i : nat) : string :=
  match c with
  | CRoutes => "$"
  | CIslands => "$$"
  | CComponents => "$$$"
  end +:+ pretty i.

Section Templates.
Context `{JsonApi}.

Definition templates_routes_imports (file : string) (i : nat) : string :=
  "import * as $" +:+ pretty i +:+ " from " +:+ dq +:+ "./routes" +:+ file
  +:+ dq +:+ ";".

Definition templates_routes_obj (file : string) (i : nat) : string :=
  JSON_stringify (JStr ("./routes" +:+ file)) +:+ ": $" +:+ pretty i +:+ ",".

Definition templates_islands_imports (file : string) (i : nat) : string :=
  "import * as $$" +:+ pretty i +:+ " from " +:+ dq +:+ "./islands" +:+ file
  +:+ dq +:+ ";".

Definition templates_islands_obj (file : string) (i : nat) : string :=
  JSON_stringify (JStr ("./islands" +:+ file)) +:+ ": $$" +:+ pretty i +:+ ",".

Definition templates_components_imports (file : string) (i : nat) : string :=
  "import * as $$$" +:+ pretty i +:+ " from " +:+ dq +:+ "./components"
  +:+ file +:+ dq +:+ ";".

Definition templates_components_obj (file : string) (i : nat) : string :=
  JSON_stringify (JStr ("./components" +:+ file)) +:+ ": $$$" +:+ pretty i
  +:+ ",".

Definition templates_schemas (entry : SchemaMap) : string :=
  dq +:+ component entry +:+ dq +:+ ": "
  +:+ (if truthy (schema entry) then JSON_stringify (schema entry) else "null")
  +:+ ",".

(** [list.map(template).join("\n")], the template taking element and
    index. *)
Definition map_join (template : string → nat → string) (files : list string)
    : string :=
  String.concat nl (imap (λ i file, template file i) files).

(** The text [generate] hands to the formatter. *)
Definition generate_output (manifest : DevManifest) : string :=
  "// DO NOT EDIT. This file is generated by deco." +:+ nl
  +:+ "    // This file SHOULD be checked into source version control." +:+ nl
  +:+ "    // This file is automatically updated during development when running `dev.ts`."
  +:+ nl +:+ nl
  +:+ "    import config from " +:+ dq +:+ "./deno.json" +:+ dq
  +:+ " assert { type: " +:+ dq +:+ "json" +:+ dq +:+ " };" +:+ nl
  +:+ "    import { DecoManifest } from " +:+ dq +:+ "$live/types.ts" +:+ dq
  +:+ ";" +:+ nl
  +:+ "    " +:+ map_join templates_routes_imports (routes manifest) +:+ nl
  +:+ "    " +:+ map_join templates_islands_imports (islands manifest) +:+ nl
  +:+ "    " +:+ map_join templates_components_imports (components manifest)
  +:+ nl +:+ nl
  +:+ "    const manifest: DecoManifest = {" +:+ nl
  +:+ "      routes: {" +:+ map_join templates_routes_obj (routes manifest)
  +:+ "}," +:+ nl
  +:+ "      islands: {" +:+ map_join templates_islands_obj (islands manifest)
  +:+ "}," +:+ nl
  +:+ "      components: {"
  +:+ map_join templates_components_obj (components manifest) +:+ "}," +:+ nl
  +:+ "      schemas: {"
  +:+ String.concat nl (map templates_schemas (schemas manifest)) +:+ "},"
  +:+ nl
  +:+ "      baseUrl: import.meta.url," +:+ nl
  +:+ "      config," +:+ nl
  +:+ "    };" +:+ nl +:+ nl
  +:+ "    export default manifest;" +:+ nl
  +:+ "    ".
End Templates.

(** What one call of [format] meets: whether [Deno.run] starts the
    formatter, whether the text can be piped to it, what it prints (decoded),
    and the exit code it reports. *)
Record FormatterRun : Type := mkFormatterRun {
  run_outcome : Result unit;
  pipeTo_outcome : Result unit;
  output_outcome : Result string;
  status_outcome : Result Z
}.

(** [format(content)] against the run the formatter makes of it. *)
Definition format (content : string) (formatter : string → FormatterRun)
    : Result string :=
  let proc := formatter content in
  match run_outcome proc with
  | Throw e => Throw e
  | Ok _ =>
      match pipeTo_outcome proc with
      | Throw e => Throw e
      | Ok _ =>
          match output_outcome proc with
          | Throw e => Throw e
          | Ok out =>
              match status_outcome proc with
              | Throw e => Throw e
              | Ok _ => Ok out
              end
          end
      end
  end.

Inductive GenerateEvent : Type :=
  | EvFormat (content : string)
  | EvWriteTextFile (manifestPath manifestStr : string)
  | EvLog (message style : string).

(** [generate(directory, manifest)]: its effects in order and its outcome,
    for the formatter and for the outcome of [Deno.writeTextFile]. *)
Definition generate `{JsonApi} `{UrlApi} (directory : string)
    (manifest : DevManifest)
    (formatter : string → FormatterRun) (write_outcome : Result unit)
    : list GenerateEvent * Result unit :=
  let output := generate_output manifest in
  match format output formatter with
  | Throw e => ([EvFormat output], Throw e)
  | Ok manifestStr =>
      let manifestPath := join directory "./deco.gen.ts" in
      match write_outcome with
      | Throw e =>
          ([EvFormat output; EvWriteTextFile manifestPath manifestStr], Throw e)
      | Ok _ =>
          ([EvFormat output; EvWriteTextFile manifestPath manifestStr;
            EvLog ("%cThe manifest has been generated for "
                   +:+ pretty (length (routes manifest)) +:+ " routes, "
                   +:+ pretty (length (islands manifest)) +:+ " islands and "
                   +:+ pretty (length (components manifest))
                   +:+ " components.")
                  "color: green; font-weight: bold"],
           Ok tt)
      end
  end.

(** A string that starts with a character other than the dollar sign. *)
Definition other_head (s : string) : Prop :=
  ∃ (c : ascii) (rest : string), s = String c rest ∧ c ≠ "$"%char.

(** A project to run [dev] on: one route, one island and the sample
    components folder, with the given previous manifest and outcome of
    [generate]. *)
Definition sample_world (previous : option DevManifest)
    (generated : Result unit) : DevWorld :=
  {| previous_manifest := previous;
     fresh_collect := Ok (["/index.tsx"], ["/Hero.tsx"]);
     components_run :=
       run_on "/project/components" (Present sample_listing);
     completion_order := [4; 2; 0; 1; 3]%nat;
     generate_outcome := generated;
     onListen_outcome := Ok tt;
     import_outcome := Ok tt |}.

(** A first run on a project without routes, islands or components. *)
Definition empty_world : DevWorld :=
  {| previous_manifest := None;
     fresh_collect := Ok ([], []);
     components_run := run_on "/project/components" Missing;
     completion_order := [];
     generate_outcome := Ok tt;
     onListen_outcome := Ok tt;
     import_outcome := Ok tt |}.

(** A run in which the walk yields a directory entry and one file twice,
    then loses the folder. *)
Definition lost_folder_run : FsRun :=
  {| readDir_outcome := Ok tt;
     walk_entries :=
       [ {| path := "/project/components/b.tsx"; isFile := true |};
         {| path := "/project/components/ui"; isFile := false |};
         {| path := "/project/components/a.tsx"; isFile := true |};
         {| path := "/project/components/b.tsx"; isFile := true |} ];
     walk_outcome := Throw NotFound |}.

(** A formatter that prints its input back and exits with [code]. *)
Definition echo_formatter (code : Z) (content : string) : FormatterRun :=
  {| run_outcome := Ok tt; pipeTo_outcome := Ok tt;
     output_outcome := Ok content; status_outcome := Ok code |}.

(** A stand-in for [JSON.stringify] that quotes strings and prints [?] for
    anything else. *)
Definition sample_json : JsonApi :=
  {| JSON_stringify := λ v,
       match v with
       | JStr s => dq +:+ s +:+ dq
       | _ => "?"
       end |}.

End Dev.

(** ** The editor form bridge ([useEditorOperations]) *)

Module Editor.

(** A property bag, [Record<string, any>]: its own keys in insertion order. *)
Definition ComponentProp : Type := list (string * JsValue).

(** Modelled from the spec: [PageComponentData] of [../types.ts], a
    component identifier and an optional property bag.  [props] is [None]
    when the key is absent or holds [undefined]. *)
Record PageComponentData : Type := mkPageComponentData {
  component : string;
  props : option ComponentProp
}.

Definition mapComponentsToFormData (components : list PageComponentData)
    : list ComponentProp :=
  map (λ component, match props component with
                    | Some bag => bag
                    | None => []
                    end) components.

(** The [forEach] of [mapFormDataToComponents] from index [index] on, with
    the entries pushed so far.  An element of the current list that is
    [undefined] cannot be destructured, and [Object.keys] of a missing form
    entry throws as well. *)
Fixpoint mapFormDataToComponents_from (formData : list ComponentProp)
    (currentComponents : list (option PageComponentData)) (index : nat)
    (components : list PageComponentData) : Result (list PageComponentData) :=
  match currentComponents with
  | [] => Ok components
  | None :: _ => Throw TypeError
  | Some current :: rest =>
      match formData !! index with
      | None => Throw TypeError
      | Some bag =>
          mapFormDataToComponents_from formData rest (S index)
            (components ++
               [{| component := component current;
                   props := if Nat.eqb (length bag) 0 then None else Some bag |}])
      end
  end.

Definition mapFormDataToComponents (formData : list ComponentProp)
    (currentComponents : list (option PageComponentData))
    : Result (list PageComponentData) :=
  mapFormDataToComponents_from formData currentComponents 0 [].

(** An entry whose property bag is empty, read as one without properties. *)
Definition drop_empty_props (c : PageComponentData) : PageComponentData :=
  {| component := component c;
     props := match props c with
              | Some [] => None
              | other => other
              end |}.

(** The entry the [forEach] of [mapFormDataToComponents] pushes for one
    current component and the form entry at its index. *)
Definition reconcile_entry (current : PageComponentData) (bag : ComponentProp)
    : PageComponentData :=
  {| component := component current;
     props := if Nat.eqb (length bag) 0 then None else Some bag |}.

(** The two components of the scenario in the specification. *)
Definition sample_hero : PageComponentData :=
  {| component := "Hero"; props := Some [("title", JStr "Hi")] |}.

Definition sample_footer : PageComponentData :=
  {| component := "Footer"; props := None |}.

(** *** The reference list as a JavaScript array *)

(** [items] are the elements at indices [0 .. length-1], [None] standing
    for [undefined]; [named] are the properties written under a negative
    index, latest first.  The handlers write at most one past the end, so no
    hole arises. *)
Record JsArray : Type := mkJsArray {
  items : list (option PageComponentData);
  named : list (Z * option PageComponentData)
}.

Definition arr_length (a : JsArray) : Z := Z.of_nat (length (items a)).

Fixpoint named_get (i : Z) (l : list (Z * option PageComponentData))
    : option PageComponentData :=
  match l with
  | [] => None
  | (k, v) :: rest => if Z.eqb k i then v else named_get i rest
  end.

(** [a[i]] *)
Definition arr_get (a : JsArray) (i : Z) : option PageComponentData :=
  if Z.ltb i 0 then named_get i (named a)
  else match items a !! Z.to_nat i with
       | Some v => v
       | None => None
       end.

(** [a[i] = v] *)
Definition arr_set (a : JsArray) (i : Z) (v : option PageComponentData)
    : JsArray :=
  if Z.ltb i 0 then {| items := items a; named := (i, v) :: named a |}
  else if Z.ltb i (arr_length a) then
    {| items := <[Z.to_nat i := v]> (items a); named := named a |}
  else
    {| items := items a
                  ++ replicate (Z.to_nat i - length (items a)) None ++ [v];
       named := named a |}.

(** [a.push(v)] *)
Definition arr_push (a : JsArray) (v : PageComponentData) : JsArray :=
  {| items := items a ++ [Some v]; named := named a |}.

(** [l.filter((_, index) => keep(index))], counting from [index]. *)
Fixpoint filter_index {A : Type} (keep : nat → bool) (index : nat)
    (l : list A) : list A :=
  match l with
  | [] => []
  | x :: rest =>
      if keep index then x :: filter_index keep (S index) rest
      else filter_index keep (S index) rest
  end.

(** [a.filter((_, index) => index !== removedIndex)]: a new array. *)
Definition arr_filter_out (a : JsArray) (removedIndex : Z) : JsArray :=
  {| items := filter_index (λ index, negb (Z.eqb (Z.of_nat index) removedIndex))
                0 (items a);
     named := [] |}.

(** *** The form library *)

(** The field-array controller of the form library, as far as the hook uses
    it: [swap], [remove] and [append] on the form values. *)
Class FieldArray : Type := mkFieldArray {
  swap : Z → Z → list ComponentProp → list ComponentProp;
  remove : Z → list ComponentProp → list ComponentProp;
  append : ComponentProp → list ComponentProp → list ComponentProp
}.

(** Exchange of the entries at two positions of a list. *)
Definition list_swap {A : Type} (i j : nat) (l : list A) : list A :=
  match l !! i, l !! j with
  | Some x, Some y => <[i := y]> (<[j := x]> l)
  | _, _ => l
  end.

(** Modelled from the spec: what the controller of the form library does
    to the form values at positions that hold an entry.  Reorder swaps the
    two entries, Remove drops the entry, Add appends the bag. *)
Class FieldArrayLaws (F : FieldArray) : Prop := mkFieldArrayLaws {
  swap_spec : ∀ (i j : Z) (l : list ComponentProp),
    0 ≤ i < Z.of_nat (length l) → 0 ≤ j < Z.of_nat (length l) →
    swap i j l = list_swap (Z.to_nat i) (Z.to_nat j) l;
  remove_spec : ∀ (i : Z) (l : list ComponentProp),
    0 ≤ i < Z.of_nat (length l) → remove i l = delete (Z.to_nat i) l;
  append_spec : ∀ (bag : ComponentProp) (l : list ComponentProp),
    append bag l = l ++ [bag]
}.

(** The controller on a plain list: an operation that names a position
    without an entry leaves the list as it is. *)
Definition plain_field_array : FieldArray :=
  {| swap := λ i j l,
       if Z.leb 0 i && Z.leb 0 j then list_swap (Z.to_nat i) (Z.to_nat j) l
       else l;
     remove := λ i l, if Z.leb 0 i then delete (Z.to_nat i) l else l;
     append := λ bag l, l ++ [bag] |}.

(** *** State of the hook *)

(** What the constant [components] of the latest render is bound to: the
    array [componentsRef.current] itself, or an older array that
    [componentsRef.current] has since been assigned away from. *)
Inductive Binding : Type :=
  | SameAsRef
  | Stale (arr : JsArray).

Record EditorState : Type := mkEditorState {
  componentsRef_current : JsArray;
  components : Binding;
  form_values : list ComponentProp
}.

(** First render. *)
Definition useEditorOperations (initialComponents : list PageComponentData)
    : EditorState :=
  {| componentsRef_current :=
       {| items := map Some initialComponents; named := [] |};
     components := SameAsRef;
     form_values := mapComponentsToFormData initialComponents |}.

(** A later render that completes: it runs
    [const components = componentsRef.current] again.  A render also
    evaluates [mapComponentsToFormData(initialComponents)] again, on the
    array the hook was given, which is the array the handlers write to until
    the first removal.  That call throws a [TypeError] when the array holds
    an [undefined] element, which only a call of [handleChangeOrder] from a
    position outside the list leaves there; such a render does not complete
    and [rerender] does not describe it. *)
Definition rerender (s : EditorState) : EditorState :=
  {| componentsRef_current := componentsRef_current s;
     components := SameAsRef;
     form_values := form_values s |}.

(** The array the handlers of the latest render see as [components]. *)
Definition bound_components (s : EditorState) : JsArray :=
  match components s with
  | SameAsRef => componentsRef_current s
  | Stale arr => arr
  end.

Inductive Direction : Type :=
  | Prev
  | Next.

(** [newPos] of [handleChangeOrder]. *)
Definition target (dir : Direction) (pos : Z) : Z :=
  match dir with
  | Prev => pos - 1
  | Next => pos + 1
  end.

Section Handlers.
Context `{FieldArray}.

Definition handleChangeOrder (dir : Direction) (pos : Z) (s : EditorState)
    : EditorState :=
  let newPos := target dir pos in
  let components0 := bound_components s in
  if Z.ltb newPos 0 || Z.geb newPos (arr_length components0) then s
  else
    let prevComp := arr_get components0 newPos in
    let components1 := arr_set components0 newPos (arr_get components0 pos) in
    let components2 := arr_set components1 pos prevComp in
    let values := swap pos newPos (form_values s) in
    match components s with
    | SameAsRef =>
        {| componentsRef_current := components2; components := SameAsRef;
           form_values := values |}
    | Stale _ =>
        {| componentsRef_current := componentsRef_current s;
           components := Stale components2;
           form_values := values |}
    end.

Definition handleRemoveComponent (removedIndex : Z) (s : EditorState)
    : EditorState :=
  {| componentsRef_current :=
       arr_filter_out (componentsRef_current s) removedIndex;
     components := Stale (bound_components s);
     form_values := remove removedIndex (form_values s) |}.

Definition handleAddComponent (componentName : string) (s : EditorState)
    : EditorState :=
  {| componentsRef_current :=
       arr_push (componentsRef_current s)
                {| component := componentName; props := None |};
     components := components s;
     form_values := append [] (form_values s) |}.
End Handlers.

(** *** Save *)

Record Request : Type := mkRequest {
  url : string;
  method : string;
  redirect : string;
  body_components : list PageComponentData;
  body_template : string
}.

Record Response : Type := mkResponse {
  status : Z;
  body : string
}.

Inductive EditorEvent : Type :=
  | EvFetch (request : Request)
  | EvReload.

(** [saveProps], for the outcome [settled] of the [fetch] promise: the state
    it leaves, its effects in order, and how its own promise settles. *)
Definition saveProps (template : string) (settled : Result Response)
    (s : EditorState) : EditorState * list EditorEvent * Result unit :=
  match mapFormDataToComponents (form_values s)
          (items (componentsRef_current s)) with
  | Throw e => (s, [], Throw e)
  | Ok reconciled =>
      let request :=
        {| url := "/live/api/editor"; method := "POST"; redirect := "manual";
           body_components := reconciled; body_template := template |} in
      match settled with
      | Throw e => (s, [EvFetch request], Throw e)
      | Ok _ => (s, [EvFetch request; EvReload], Ok tt)
      end
  end.

(** *** Operations of the bridge *)

(** One user action: a handler runs, and the update of the field array it
    makes renders the hook again before the next action. *)
Section Operations.
Context `{FieldArray}.

Definition Reorder (dir : Direction) (pos : Z) (s : EditorState)
    : EditorState :=
  rerender (handleChangeOrder dir pos s).

Definition Remove (index : Z) (s : EditorState) : EditorState :=
  rerender (handleRemoveComponent index s).

Definition Add (name : string) (s : EditorState) : EditorState :=
  rerender (handleAddComponent name s).

Definition Save (template : string) (settled : Result Response)
    (s : EditorState) : EditorState :=
  (saveProps template settled s).1.1.
End Operations.

(** The operations at the positions the rendered list offers. *)
Inductive step `{FieldArray} : EditorState → EditorState → Prop :=
  | step_reorder (dir : Direction) (pos : Z) (s : EditorState) :
      0 ≤ pos < arr_length (componentsRef_current s) →
      step s (Reorder dir pos s)
  | step_remove (index : Z) (s : EditorState) :
      0 ≤ index < arr_length (componentsRef_current s) →
      step s (Remove index s)
  | step_add (name : string) (s : EditorState) :
      step s (Add name s)
  | step_save (template : string) (settled : Result Response)
      (s : EditorState) :
      step s (Save template settled s).

Inductive reachable `{FieldArray} (initialComponents : list PageComponentData)
    : EditorState → Prop :=
  | reachable_init :
      reachable initialComponents (useEditorOperations initialComponents)
  | reachable_step (s s' : EditorState) :
      reachable initialComponents s → step s s' →
      reachable initialComponents s'.

(** The two lists read side by side. *)
Definition paired (s : EditorState)
    : list (option PageComponentData * ComponentProp) :=
  zip (items (componentsRef_current s)) (form_values s).

(** The joint invariant: the handlers see the current reference list, and
    it is as long as the list of form values. *)
Definition aligned (s : EditorState) : Prop :=
  components s = SameAsRef ∧
  length (items (componentsRef_current s)) = length (form_values s).

End Editor.

(** * Properties *)

(** ** Manifest differ *)

Section DifferProperties.
Import Dev.

Lemma arraysEqual_loop_true (a b : list string) (n i : nat) :
  arraysEqual_loop a b i n = true ↔
  ∀ j : nat, (i ≤ j < i + n)%nat → a !! j = b !! j.
Proof.
  revert i. induction n as [|n IH]; intros i; simpl.
  - split; [intros _ j Hj; lia | done].
  - unfold strict_neq. case_bool_decide as Hne.
    + split; [done|]. intros Hall. exfalso. apply Hne, Hall. lia.
    + rewrite IH. split.
      * intros Hall j Hj. destruct (decide (j = i)) as [->|]; [done|].
        apply Hall. lia.
      * intros Hall j Hj. apply Hall. lia.
Qed.

Lemma arraysEqual_true (a b : list string) : arraysEqual a b = true ↔ a = b.
Proof.
  unfold arraysEqual.
  destruct (Nat.eqb_spec (length a) (length b)) as [Hl|Hl]; simpl.
  - rewrite arraysEqual_loop_true. split.
    + intros Hall. apply list_eq. intros j.
      destruct (decide (j < length a)%nat) as [Hj|Hj].
      * apply Hall. lia.
      * rewrite !lookup_ge_None_2; [done|lia|lia].
    + by intros ->.
  - split; [done|]. by intros ->.
Qed.

Lemma arraysEqual_false (a b : list string) : arraysEqual a b = false ↔ a ≠ b.
Proof.
  rewrite <- arraysEqual_true. destruct (arraysEqual a b); split; congruence.
Qed.

Lemma lists_differ_neq (a b : list string) : lists_differ a b ↔ a ≠ b.
Proof.
  split.
  - intros [Hlen|(i & x & y & Ha & Hb & Hxy)] ->; [done|]. congruence.
  - intros Hne. destruct (decide (length a = length b)) as [Hlen|]; [|by left].
    right. revert b Hne Hlen.
    induction a as [|x a IH]; intros [|y b] Hne Hlen; simplify_eq/=.
    destruct (decide (x = y)) as [->|Hxy].
    + destruct (IH b) as (i & x' & y' & ? & ? & ?); [congruence|done|].
      by exists (S i), x', y'.
    + by exists 0%nat, x, y.
Qed.

Lemma generate_calls_boot (dir entrypoint : string) (onListen : bool)
    (w : DevWorld) (currentManifest newManifest : DevManifest) :
  generate_calls
    (dev_boot dir entrypoint onListen w currentManifest newManifest).1
  = if manifestChanged newManifest currentManifest then 1%nat else 0%nat.
Proof.
  unfold dev_boot.
  destruct (manifestChanged newManifest currentManifest);
    destruct (generate_outcome w), onListen, (onListen_outcome w); reflexivity.
Qed.

(** C1.  [manifestChanged] holds exactly when the routes, the islands or
    the components of the two manifests differ (in length or in the value
    at some index); the schemas play no part, so manifests that agree on
    the three path lists are never reported changed; and [dev] calls
    [generate] once when [manifestChanged] holds and not at all
    otherwise. *)
Theorem manifest_changed_iff_paths_differ
    (newManifest currentManifest : DevManifest) :
  (manifestChanged newManifest currentManifest = true ↔
     lists_differ (routes newManifest) (routes currentManifest) ∨
     lists_differ (islands newManifest) (islands currentManifest) ∨
     lists_differ (components newManifest) (components currentManifest))
  ∧ (∀ newSchemas currentSchemas : list SchemaMap,
       manifestChanged
         {| routes := routes newManifest; islands := islands newManifest;
            components := components newManifest; schemas := newSchemas |}
         {| routes := routes newManifest; islands := islands newManifest;
            components := components newManifest;
            schemas := currentSchemas |} = false)
  ∧ (∀ (dir entrypoint : string) (onListen : bool) (w : DevWorld),
       generate_calls
         (dev_boot dir entrypoint onListen w currentManifest newManifest).1
       = if manifestChanged newManifest currentManifest then 1%nat
         else 0%nat)
  ∧ (∀ (L : ModuleLoader) (U : UrlApi) (dir entrypoint : string)
       (onListen : bool) (w : DevWorld),
       current_manifest w = currentManifest →
       fresh_collect w = Ok (routes newManifest, islands newManifest) →
       collectComponents dir (components_run w)
       = Ok (components newManifest) →
       collectComponentsSchemas (islands newManifest)
         (components newManifest) dir (completion_order w)
       = Some (Ok (schemas newManifest)) →
       generate_calls (dev dir entrypoint onListen w).1
       = if manifestChanged newManifest currentManifest then 1%nat
         else 0%nat).
Proof.
  split; [|split; [|split]].
  - unfold manifestChanged. rewrite !orb_true_iff, !negb_true_iff.
    rewrite !arraysEqual_false, !lists_differ_neq. tauto.
  - intros newSchemas currentSchemas. unfold manifestChanged; simpl.
    by rewrite !(proj2 (arraysEqual_true _ _) eq_refl).
  - intros. apply generate_calls_boot.
  - intros L U dir entrypoint onListen w Hprevious Hcollect Hfound Hschemas.
    unfold dev. rewrite Hprevious, Hcollect, Hfound, Hschemas. simpl.
    pose proof (generate_calls_boot dir entrypoint onListen w currentManifest
                  newManifest) as Hboot.
    destruct newManifest as [rs isl cs ss]. simpl in *.
    by destruct (dev_boot dir entrypoint onListen w currentManifest
                   {| routes := rs; islands := isl; components := cs;
                      schemas := ss |}).
Qed.

(** The scenario of the specification: the same single route before and
    after, nothing to regenerate. *)
Example unchanged_manifest_skips_generation :
  manifestChanged
    {| routes := ["/x"]; islands := []; components := []; schemas := [] |}
    {| routes := ["/x"]; islands := []; components := []; schemas := [] |}
  = false.
Proof. reflexivity. Qed.

Example reordered_routes_change_manifest :
  manifestChanged
    {| routes := ["/b"; "/a"]; islands := []; components := []; schemas := [] |}
    {| routes := ["/a"; "/b"]; islands := []; components := []; schemas := [] |}
  = true.
Proof. reflexivity. Qed.
End DifferProperties.

(** ** Schema collector *)

Section CollectorProperties.
Import Dev.
Context `{ModuleLoader}.
Variable directory : string.

Lemma foldl_push {A B : Type} (f : A → B) (l : list A) (acc : list B) :
  foldl (λ acc x, acc ++ [f x]) acc l = acc ++ map f l.
Proof.
  revert acc. induction l as [|x l IH]; intros acc; simpl.
  - by rewrite app_nil_r.
  - by rewrite IH, <- app_assoc.
Qed.

Lemma foldl_push_unless {A B : Type} (P : A → Prop) `{∀ x, Decision (P x)}
    (f : A → B) (l : list A) (acc : list B) :
  foldl (λ acc x, if decide (P x) then acc else acc ++ [f x]) acc l
  = acc ++ map f (filter (λ x, ¬ P x) l).
Proof.
  revert acc. induction l as [|x l IH]; intros acc; simpl.
  - by rewrite app_nil_r.
  - rewrite IH, filter_cons. destruct (decide (P x)) as [HP|HP].
    + by rewrite decide_False by tauto.
    + rewrite decide_True by done. simpl. by rewrite <- app_assoc.
Qed.

Lemma componentSchemasPromises_requests (islands components : list string) :
  componentSchemasPromises directory islands components
  = map (λ request, mapComponentToSchemaMap directory request.2 request.1)
        (load_requests islands components).
Proof.
  unfold componentSchemasPromises, load_requests.
  rewrite foldl_push. simpl.
  rewrite (foldl_push_unless (λ name, name ∈ (list_to_set islands : gset string))).
  rewrite map_app, !map_map. simpl. f_equal. f_equal.
  apply list_filter_iff. intros name. by rewrite elem_of_list_to_set.
Qed.
End CollectorProperties.

Section PromiseProperties.
Import Dev.
Context {A : Type}.
Implicit Types (vs : list A) (order finished : list nat).

Lemma filled_nil vs : filled [] vs = replicate (length vs) None.
Proof.
  apply list_eq. intros i. unfold filled. rewrite list_lookup_imap.
  destruct (vs !! i) as [v|] eqn:Hi; simpl.
  - symmetry. apply lookup_replicate_2. by apply lookup_lt_Some in Hi.
  - symmetry. apply lookup_ge_None. rewrite length_replicate.
    by apply lookup_ge_None in Hi.
Qed.

Lemma filled_all finished vs :
  complete_order (length vs) finished → filled finished vs = Some <$> vs.
Proof.
  intros Hall. apply list_eq. intros i. unfold filled.
  rewrite list_lookup_imap, list_lookup_fmap.
  destruct (vs !! i) as [v|] eqn:Hi; simpl; [|done].
  rewrite decide_True; [done|]. apply Hall. by apply lookup_lt_Some in Hi.
Qed.

Lemma filled_store i v finished vs :
  vs !! i = Some v →
  <[i := Some v]> (filled finished vs) = filled (i :: finished) vs.
Proof.
  intros Hi. apply list_eq. intros j. unfold filled.
  destruct (decide (j = i)) as [->|Hne].
  - rewrite list_lookup_insert_eq.
    + rewrite list_lookup_imap, Hi. simpl.
      rewrite decide_True; [done|]. apply elem_of_cons. by left.
    + rewrite length_imap. by apply lookup_lt_Some in Hi.
  - rewrite list_lookup_insert_ne by done. rewrite !list_lookup_imap.
    destruct (vs !! j); simpl; [|done].
    apply option_eq. intros w.
    destruct (decide (j ∈ finished)), (decide (j ∈ i :: finished)) as [Hin|Hin];
      try done; exfalso.
    + apply Hin, elem_of_cons. by right.
    + apply elem_of_cons in Hin as [?|?]; done.
Qed.

Lemma filled_skip i finished vs :
  vs !! i = None → filled finished vs = filled (i :: finished) vs.
Proof.
  intros Hi. apply list_eq. intros j. unfold filled. rewrite !list_lookup_imap.
  destruct (vs !! j) eqn:Hj; simpl; [|done].
  destruct (decide (j ∈ finished)), (decide (j ∈ i :: finished)) as [Hin|Hin];
    try done; exfalso.
  + apply Hin, elem_of_cons. by right.
  + apply elem_of_cons in Hin as [->|?]; [congruence|done].
Qed.

Lemma promiseAll_settle_fulfilled vs order finished :
  ∃ finished',
    (∀ i, i ∈ finished' ↔ i ∈ order ∨ i ∈ finished) ∧
    promiseAll_settle (Ok <$> vs) order (filled finished vs)
    = Ok (filled finished' vs).
Proof.
  revert finished. induction order as [|i order IH]; intros finished; simpl.
  - exists finished. split; [|done]. intros i. rewrite elem_of_nil. tauto.
  - rewrite list_lookup_fmap. destruct (vs !! i) as [v|] eqn:Hi; simpl.
    + rewrite (filled_store _ _ _ _ Hi).
      destruct (IH (i :: finished)) as (finished' & Hmem & ->).
      exists finished'. split; [|done]. intros j.
      rewrite Hmem, !elem_of_cons. tauto.
    + rewrite (filled_skip _ finished _ Hi).
      destruct (IH (i :: finished)) as (finished' & Hmem & ->).
      exists finished'. split; [|done]. intros j.
      rewrite Hmem, !elem_of_cons. tauto.
Qed.

(** Whatever the completion order, [Promise.all] over promises that are all
    fulfilled yields their values in the order of the promises. *)
Lemma promiseAll_fulfilled vs order :
  complete_order (length vs) order →
  promiseAll (Ok <$> vs) order = Some (Ok vs).
Proof.
  intros Hall. unfold promiseAll. rewrite length_fmap, <- filled_nil.
  destruct (promiseAll_settle_fulfilled vs order []) as (finished' & Hmem & ->).
  rewrite filled_all.
  - by rewrite mapM_fmap_Some.
  - intros i Hi. apply Hmem. left. by apply Hall.
Qed.
End PromiseProperties.

Section PromiseOutcomes.
Import Dev.
Context {A : Type}.
Implicit Types (ps : list (Result A)) (order : list nat).

Lemma promiseAll_settle_rejected ps order (values : list (option A))
    (i : nat) (e : JsError) :
  i ∈ order → ps !! i = Some (Throw e) →
  ∃ (j : nat) (e' : JsError),
    ps !! j = Some (Throw e') ∧ promiseAll_settle ps order values = Throw e'.
Proof.
  intros Hin Hi. revert values.
  induction order as [|k order IH]; intros values.
  - by apply elem_of_nil in Hin.
  - simpl. destruct (ps !! k) as [[v|e']|] eqn:Hk.
    + apply elem_of_cons in Hin as [->|Hin]; [congruence|]. by apply IH.
    + by exists k, e'.
    + apply elem_of_cons in Hin as [->|Hin]; [congruence|]. by apply IH.
Qed.

Lemma promiseAll_rejected ps order (i : nat) (e : JsError) :
  complete_order (length ps) order → ps !! i = Some (Throw e) →
  ∃ (j : nat) (e' : JsError),
    ps !! j = Some (Throw e') ∧ promiseAll ps order = Some (Throw e').
Proof.
  intros Horder Hi.
  destruct (promiseAll_settle_rejected ps order
              (replicate (length ps) None) i e) as (j & e' & Hj & Hsettle);
    [by eapply Horder, lookup_lt_Some|done|].
  exists j, e'. split; [done|]. unfold promiseAll. by rewrite Hsettle.
Qed.

Lemma promiseAll_settle_stored ps order (values values' : list (option A)) :
  promiseAll_settle ps order values = Ok values' →
  length values = length ps →
  (∀ i v, values !! i = Some (Some v) → ps !! i = Some (Ok v)) →
  length values' = length ps
  ∧ ∀ i v, values' !! i = Some (Some v) → ps !! i = Some (Ok v).
Proof.
  revert values. induction order as [|k order IH]; intros values; simpl.
  - intros [= <-]. done.
  - destruct (ps !! k) as [[w|e]|] eqn:Hk; [|done|by apply IH].
    intros Hsettle Hlen Hstored. apply (IH _ Hsettle).
    + by rewrite length_insert.
    + intros i v Hi. apply list_lookup_insert_Some in Hi
        as [(-> & Heq & _)|[_ Hi]]; [congruence|by apply Hstored].
Qed.

(** [Promise.all] fulfils only when every promise did, and then with their
    values in the order of the promises. *)
Lemma promiseAll_fulfilled_inv ps order (vs : list A) :
  promiseAll ps order = Some (Ok vs) → ps = Ok <$> vs.
Proof.
  unfold promiseAll.
  destruct (promiseAll_settle ps order (replicate (length ps) None))
    as [values|e] eqn:Hsettle; [|done].
  destruct (mapM id values) as [vs'|] eqn:HmapM; [|done]. intros [= ->].
  apply promiseAll_settle_stored in Hsettle as [Hlen Hstored].
  - apply mapM_Some in HmapM.
    assert (values = Some <$> vs) as ->.
    { clear Hlen Hstored. induction HmapM as [|x v values vs Hx _ IH]; [done|].
      simpl in Hx. subst x. by rewrite fmap_cons, IH. }
    rewrite length_fmap in Hlen. apply list_eq. intros i.
    rewrite list_lookup_fmap. destruct (vs !! i) as [v|] eqn:Hi; simpl.
    + apply Hstored. by rewrite list_lookup_fmap, Hi.
    + apply lookup_ge_None. rewrite <- Hlen. by apply lookup_ge_None.
  - by rewrite length_replicate.
  - intros i v Hi. apply lookup_replicate in Hi as [Hi _]. done.
Qed.
End PromiseOutcomes.

Section CollectorResults.
Import Dev.
Context `{ModuleLoader}.
Variable directory : string.

Lemma omap_id_fmap {A B : Type} (f : A → option B) (l : list A) :
  omap id (f <$> l) = omap f l.
Proof.
  induction l as [|x l IH]; csimpl; [done|]. by rewrite IH.
Qed.

Lemma filter_none {A : Type} (P : A → Prop) `{∀ x, Decision (P x)}
    (l : list A) :
  (∀ x, x ∈ l → ¬ P x) → filter P l = [].
Proof.
  induction l as [|x l IH]; intros Hnone; [done|].
  rewrite filter_cons_False by (apply Hnone; left).
  apply IH. intros y Hy. apply Hnone. by right.
Qed.

Lemma mapComponentToSchemaMap_loaded (componentName : string)
    (type : ComponentType) (m : ModuleNs) :
  importModule directory type componentName = Ok m →
  mapComponentToSchemaMap directory componentName type
  = Ok (if truthy (module_schema m)
        then Some {| component := componentNameFromPath componentName;
                     schema := module_schema m |}
        else None).
Proof.
  intros Hload. unfold mapComponentToSchemaMap. rewrite Hload.
  by destruct (truthy (module_schema m)).
Qed.

Lemma collect_all_loaded (islands components : list string)
    (order : list nat) :
  complete_order (length (load_requests islands components)) order →
  (∀ request, request ∈ load_requests islands components →
     ∃ m, importModule directory request.1 request.2 = Ok m) →
  collectComponentsSchemas islands components directory order
  = Some (Ok (omap (entry_of directory) (load_requests islands components))).
Proof.
  intros Horder Hloaded. unfold collectComponentsSchemas.
  rewrite componentSchemasPromises_requests.
  set (requests := load_requests islands components) in *.
  assert (map (λ request, mapComponentToSchemaMap directory request.2 request.1)
              requests
          = Ok <$> (entry_of directory <$> requests)) as ->.
  { rewrite <- list_fmap_compose. apply list_fmap_ext. intros i request Hi.
    destruct (Hloaded request) as [m Hm]; [by eapply list_elem_of_lookup_2|].
    unfold entry_of. simpl.
    rewrite (mapComponentToSchemaMap_loaded _ _ _ Hm).
    by destruct (truthy (module_schema m)). }
  rewrite promiseAll_fulfilled by (by rewrite length_fmap).
  by rewrite omap_id_fmap.
Qed.

(** A list is returned only when every load succeeded, and then it holds
    the entries of the loads in the order they were issued. *)
Lemma collectComponentsSchemas_returned (islands components : list string)
    (order : list nat) (result : list SchemaMap) :
  collectComponentsSchemas islands components directory order
  = Some (Ok result) →
  (∀ request, request ∈ load_requests islands components →
     ∃ m, importModule directory request.1 request.2 = Ok m)
  ∧ result = omap (entry_of directory) (load_requests islands components).
Proof.
  unfold collectComponentsSchemas.
  destruct (promiseAll _ order) as [[values|e]|] eqn:Hall; [|done..].
  intros [= <-]. apply promiseAll_fulfilled_inv in Hall.
  rewrite componentSchemasPromises_requests in Hall.
  change (map ?f ?l) with (f <$> l) in Hall. split.
  - intros request Hin. apply list_elem_of_lookup in Hin as [i Hi].
    apply (f_equal (λ l, l !! i)) in Hall.
    rewrite !list_lookup_fmap, Hi in Hall. simpl in Hall.
    unfold mapComponentToSchemaMap in Hall.
    destruct (importModule directory request.1 request.2) as [m|e];
      [by exists m|].
    by destruct (values !! i).
  - rewrite <- (omap_id_fmap (entry_of directory)). f_equal.
    apply list_eq. intros i. apply (f_equal (λ l, l !! i)) in Hall.
    rewrite !list_lookup_fmap in Hall. rewrite list_lookup_fmap.
    destruct (load_requests islands components !! i) as [request|];
      destruct (values !! i) as [v|]; simpl in *; try done.
    injection Hall as Hall. unfold entry_of. rewrite Hall.
    by destruct v.
Qed.

Lemma filter_named_requests (type : ComponentType) (name : string)
    (names : list string) :
  filter (λ request : ComponentType * string, request.2 = name)
         (map (pair type) names)
  = replicate (length (filter (λ n, n = name) names)) (type, name).
Proof.
  induction names as [|n names IH]; [done|]. simpl.
  rewrite !filter_cons. simpl. destruct (decide (n = name)) as [->|Hne].
  - simpl. by rewrite IH.
  - done.
Qed.

Lemma island_not_requested_as_component (islands components : list string)
    (name : string) :
  name ∈ islands → (TComponents, name) ∉ load_requests islands components.
Proof.
  intros Hin. unfold load_requests. rewrite elem_of_app.
  intros [Hl|Hr].
  - apply list_elem_of_fmap in Hl as (n & Heq & _). done.
  - apply list_elem_of_fmap in Hr as (n & Heq & Hn). simplify_eq.
    apply list_elem_of_filter in Hn as [Hn _]. done.
Qed.

Lemma island_requests (islands components : list string) (name : string) :
  name ∈ islands →
  filter (λ request : ComponentType * string, request.2 = name)
         (load_requests islands components)
  = replicate (length (filter (λ n, n = name) islands)) (TIslands, name).
Proof.
  intros Hin. unfold load_requests.
  rewrite filter_app, !filter_named_requests.
  rewrite list_filter_filter.
  rewrite (filter_none _ components).
  - by rewrite app_nil_r.
  - intros n _ [-> Hn]. done.
Qed.
End CollectorResults.






Example falsy_values :
  map truthy [JBool false; JNum 0; JStr ""; JNull; JUndefined; JNaN]
  = [false; false; false; false; false; false]
  ∧ map truthy [JBool true; JNum 7; JStr "0"; JObj []; JArr []]
    = [true; true; true; true; true].
Proof. split; reflexivity. Qed.

Example falsy_schema_is_dropped :
  @Dev.collectComponentsSchemas Dev.sample_loader
    ["/Hero.tsx"; "/Zero.tsx"] ["/Plain.tsx"; "/Hero.tsx"] "/project"
    [2; 0; 1]%nat
  = Some (Ok [ {| Dev.component := "/Hero.tsx";
                  Dev.schema := JObj [("title", JStr "string")] |} ]).
Proof. vm_compute. reflexivity. Qed.

Example failed_load_rejects_the_batch :
  @Dev.collectComponentsSchemas Dev.sample_loader
    ["/Hero.tsx"] ["/Broken.tsx"] "/project" [0; 1]%nat
  = Some (Throw (Failure "syntax")).
Proof. vm_compute. reflexivity. Qed.

Lemma length_omap_le {A B : Type} (f : A → option B) (l : list A) :
  (length (omap f l) ≤ length l)%nat.
Proof.
  induction l as [|x l IH]; csimpl; [done|].
  destruct (f x); simpl; lia.
Qed.

Lemma NoDup_occurs_once {A : Type} `{EqDecision A} (x : A) (l : list A) :
  NoDup l → (length (filter (λ y, y = x) l) ≤ 1)%nat.
Proof.
  induction 1 as [|y l Hy Hnodup IH]; [simpl; lia|].
  rewrite filter_cons. destruct (decide (y = x)) as [->|Hne]; [|done].
  rewrite (filter_none _ l); [simpl; lia|].
  intros z Hz ->. done.
Qed.

Lemma NoDup_occurs_exactly_once {A : Type} `{EqDecision A} (x : A)
    (l : list A) :
  NoDup l → x ∈ l → length (filter (λ y, y = x) l) = 1%nat.
Proof.
  intros Hnodup Hin. pose proof (NoDup_occurs_once x l Hnodup) as Hmost.
  assert (x ∈ filter (λ y, y = x) l) as Hkept by (by apply list_elem_of_filter).
  destruct (filter (λ y, y = x) l) as [|y rest]; [by apply elem_of_nil in Hkept|].
  simpl in *. lia.
Qed.

(** C5.  For an islands list that holds no path twice, as the path lists of
    a manifest do: a list the collector returns holds the entries in the
    order the loads are issued, each island and then each component that is
    not an island, whatever the order the loads complete in.  A name in both
    lists is loaded once, as an island, and contributes at most one entry.
    A module that loads without a [schema] export resolves to [undefined] and
    contributes no entry; when every module loads, the collector returns the
    list, whatever the modules export. *)
Theorem collected_schemas_follow_enumeration (L : Dev.ModuleLoader)
    (directory : string) (islands components : list string) :
  NoDup islands →
  (∀ (order : list nat) (result : list Dev.SchemaMap),
     Dev.collectComponentsSchemas islands components directory order
     = Some (Ok result) →
     result = omap (Dev.entry_of directory)
                (Dev.load_requests islands components))
  ∧ (∀ name : string, name ∈ islands → name ∈ components →
       filter (λ request : Dev.ComponentType * string, request.2 = name)
              (Dev.load_requests islands components)
       = [(Dev.TIslands, name)]
       ∧ (length (omap (Dev.entry_of directory)
                    (filter (λ request : Dev.ComponentType * string,
                               request.2 = name)
                            (Dev.load_requests islands components))) ≤ 1)%nat)
  ∧ (∀ request m,
       request ∈ Dev.load_requests islands components →
       Dev.importModule directory request.1 request.2 = Ok m →
       Dev.schema_export m = None →
       Dev.mapComponentToSchemaMap directory request.2 request.1 = Ok None
       ∧ Dev.entry_of directory request = None)
  ∧ (∀ order : list nat,
       Dev.complete_order (length (Dev.load_requests islands components))
         order →
       (∀ request, request ∈ Dev.load_requests islands components →
          ∃ m, Dev.importModule directory request.1 request.2 = Ok m) →
       Dev.collectComponentsSchemas islands components directory order
       = Some (Ok (omap (Dev.entry_of directory)
                        (Dev.load_requests islands components)))).
Proof.
  intros Hnodup. split; [|split; [|split]].
  - intros order result Hreturned.
    by apply collectComponentsSchemas_returned in Hreturned as [_ ->].
  - intros name Hisland _.
    assert (filter (λ request : Dev.ComponentType * string, request.2 = name)
                   (Dev.load_requests islands components)
            = [(Dev.TIslands, name)]) as Honce.
    { rewrite island_requests by done.
      by rewrite NoDup_occurs_exactly_once. }
    split; [done|]. rewrite Honce.
    etrans; [apply length_omap_le|]. done.
  - intros request m _ Hload Hnone.
    assert (Dev.mapComponentToSchemaMap directory request.2 request.1
            = Ok None) as Hresolved.
    { rewrite (mapComponentToSchemaMap_loaded _ _ _ _ Hload).
      unfold Dev.module_schema. by rewrite Hnone. }
    split; [done|]. unfold Dev.entry_of. by rewrite Hresolved.
  - intros order Horder Hloaded. by apply collect_all_loaded.
Qed.

Lemma collected_schemas_follow_enumeration_witness :
  [ {| Dev.component := "/Hero.tsx";
       Dev.schema := JObj [("title", JStr "string")] |} ]
  = omap (@Dev.entry_of Dev.sample_loader "/project")
      (Dev.load_requests ["/Hero.tsx"; "/Zero.tsx"]
         ["/Plain.tsx"; "/Hero.tsx"])
  ∧ filter (λ request : Dev.ComponentType * string, request.2 = "/Hero.tsx")
           (Dev.load_requests ["/Hero.tsx"; "/Zero.tsx"]
              ["/Plain.tsx"; "/Hero.tsx"])
    = [(Dev.TIslands, "/Hero.tsx")].
Proof.
  assert (NoDup ["/Hero.tsx"; "/Zero.tsx"]) as Hnodup
    by (apply (bool_decide_unpack (NoDup _)); vm_compute; exact I).
  split.
  - exact (proj1 (collected_schemas_follow_enumeration Dev.sample_loader
                    "/project" ["/Hero.tsx"; "/Zero.tsx"]
                    ["/Plain.tsx"; "/Hero.tsx"] Hnodup)
             [2; 0; 1]%nat _ falsy_schema_is_dropped).
  - apply (proj1 (proj2 (collected_schemas_follow_enumeration Dev.sample_loader
                           "/project" ["/Hero.tsx"; "/Zero.tsx"]
                           ["/Plain.tsx"; "/Hero.tsx"] Hnodup))).
    + vm_compute. apply list_elem_of_here.
    + vm_compute. apply list_elem_of_further, list_elem_of_here.
Defined.

(** The scenario above, with the loads completing last to first. *)
Example enumeration_order_kept :
  @Dev.collectComponentsSchemas Dev.sample_loader
    ["/Hero.tsx"; "/Zero.tsx"] ["/Plain.tsx"; "/Hero.tsx"] "/project"
    [2; 1; 0]%nat
  = Some (Ok [ {| Dev.component := "/Hero.tsx";
                  Dev.schema := JObj [("title", JStr "string")] |} ])
  ∧ Dev.load_requests ["/Hero.tsx"; "/Zero.tsx"] ["/Plain.tsx"; "/Hero.tsx"]
    = [(Dev.TIslands, "/Hero.tsx"); (Dev.TIslands, "/Zero.tsx");
       (Dev.TComponents, "/Plain.tsx")].
Proof. split; vm_compute; reflexivity. Qed.

(** Outside the manifests [dev] builds: a path that the islands list holds
    twice is loaded once for each time it is listed. *)
Example duplicate_island_loaded_twice :
  @Dev.collectComponentsSchemas Dev.sample_loader
    ["/Hero.tsx"; "/Hero.tsx"] ["/Hero.tsx"] "/project" [0; 1]%nat
  = Some (Ok [ {| Dev.component := "/Hero.tsx";
                  Dev.schema := JObj [("title", JStr "string")] |};
               {| Dev.component := "/Hero.tsx";
                  Dev.schema := JObj [("title", JStr "string")] |} ]).
Proof. vm_compute. reflexivity. Qed.

(** ** Editor form bridge *)

Section ReconcileProperties.
Import Editor.

Lemma mapFormDataToComponents_from_round_trip
    (cs : list PageComponentData) (before : list ComponentProp)
    (pushed : list PageComponentData) :
  mapFormDataToComponents_from (before ++ mapComponentsToFormData cs)
    (Some <$> cs) (length before) pushed
  = Ok (pushed ++ (drop_empty_props <$> cs)).
Proof.
  revert before pushed. induction cs as [|c cs IH]; intros before pushed.
  - simpl. by rewrite app_nil_r.
  - simpl. rewrite list_lookup_middle by done.
    specialize (IH (before ++ [match props c with Some bag => bag | None => [] end])).
    rewrite length_app, Nat.add_1_r, <- app_assoc in IH. simpl in IH.
    unfold mapComponentsToFormData in IH. rewrite IH, <- app_assoc. simpl.
    do 3 f_equal. unfold drop_empty_props.
    by destruct (props c) as [[|]|].
Qed.

(** C2.  Mapping a component list to form data and back, against the same
    list, returns the list with every entry as it was, except that an entry
    without [props] or with an empty bag comes back with [props] undefined;
    no entry comes back with an empty bag. *)
Theorem form_data_round_trip (cs : list PageComponentData) :
  mapFormDataToComponents (mapComponentsToFormData cs) (Some <$> cs)
  = Ok (drop_empty_props <$> cs)
  ∧ ∀ c : PageComponentData,
      (props c = None ∨ props c = Some [] →
         drop_empty_props c = {| component := component c; props := None |})
      ∧ (∀ bag, props c = Some bag → bag ≠ [] → drop_empty_props c = c)
      ∧ props (drop_empty_props c) ≠ Some [].
Proof.
  split.
  - apply (mapFormDataToComponents_from_round_trip cs [] []).
  - intros [name properties]. unfold drop_empty_props. simpl.
    destruct properties as [bag|]; [destruct bag as [|entry bag]|];
      repeat split; try done.
    + by intros bag' [= <-] Hne.
    + by intros [?|?].
Qed.

(** The scenario of the specification. *)
Example hero_and_footer_round_trip :
  let cs := [ {| component := "Hero"; props := Some [("title", JStr "Hi")] |};
              {| component := "Footer"; props := None |} ] in
  mapComponentsToFormData cs = [[("title", JStr "Hi")]; []]
  ∧ mapFormDataToComponents (mapComponentsToFormData cs) (Some <$> cs)
    = Ok cs.
Proof. split; reflexivity. Qed.

(** A form list shorter than the component list makes the mapping throw. *)
Example short_form_data_throws :
  mapFormDataToComponents []
    [Some {| component := "Hero"; props := None |}] = Throw TypeError.
Proof. reflexivity. Qed.

Lemma saveProps_events (template : string) (settled : Result Response)
    (s : EditorState) (reconciled : list PageComponentData) :
  mapFormDataToComponents (form_values s) (items (componentsRef_current s))
  = Ok reconciled →
  saveProps template settled s
  = (s,
     EvFetch {| url := "/live/api/editor"; method := "POST";
                redirect := "manual"; body_components := reconciled;
                body_template := template |}
       :: match settled with
          | Ok _ => [EvReload]
          | Throw _ => []
          end,
     match settled with
     | Ok _ => Ok tt
     | Throw e => Throw e
     end).
Proof.
  intros Hreconciled. unfold saveProps. rewrite Hreconciled.
  by destruct settled.
Qed.

(** C4, as the code has it.  Once the form values are reconciled,
    [saveProps] issues one POST; when the fetch resolves, whatever the
    status and the body of the response, the page is reloaded next; when the
    fetch rejects, [saveProps] rejects with the same error and the page is
    not reloaded. *)
Theorem save_reloads_once_fetch_resolves (template : string)
    (s : EditorState) (reconciled : list PageComponentData) :
  mapFormDataToComponents (form_values s) (items (componentsRef_current s))
  = Ok reconciled →
  let request :=
    {| url := "/live/api/editor"; method := "POST"; redirect := "manual";
       body_components := reconciled; body_template := template |} in
  (∀ response : Response,
     saveProps template (Ok response) s
     = (s, [EvFetch request; EvReload], Ok tt))
  ∧ (∀ e : JsError,
       saveProps template (Throw e) s = (s, [EvFetch request], Throw e)).
Proof.
  intros Hreconciled request. split.
  - intros response. by rewrite (saveProps_events _ _ _ _ Hreconciled).
  - intros e. by rewrite (saveProps_events _ _ _ _ Hreconciled).
Qed.

Lemma save_reloads_once_fetch_resolves_witness :
  let s := useEditorOperations
             [ {| component := "Hero"; props := Some [("title", JStr "Hi")] |};
               {| component := "Footer"; props := None |} ] in
  let request :=
    {| url := "/live/api/editor"; method := "POST"; redirect := "manual";
       body_components :=
         [ {| component := "Hero"; props := Some [("title", JStr "Hi")] |};
           {| component := "Footer"; props := None |} ];
       body_template := "<t>" |} in
  (∀ response : Response,
     saveProps "<t>" (Ok response) s = (s, [EvFetch request; EvReload], Ok tt))
  ∧ (∀ e : JsError,
       saveProps "<t>" (Throw e) s = (s, [EvFetch request], Throw e)).
Proof.
  intros s request.
  exact (save_reloads_once_fetch_resolves "<t>" s _ eq_refl).
Defined.

(** C4 as stated fails: a rejected fetch is followed by no reload. *)
Lemma rejected_fetch_no_reload :
  ¬ (∀ (template : string) (settled : Result Response) (s : EditorState)
       (request : Request),
       EvFetch request ∈ (saveProps template settled s).1.2 →
       EvReload ∈ (saveProps template settled s).1.2).
Proof.
  intros Hclaim.
  specialize (Hclaim "<t>" (Throw (Failure "network"))
                (useEditorOperations [{| component := "Footer"; props := None |}])
                _ (list_elem_of_here _ _)).
  simpl in Hclaim. apply elem_of_cons in Hclaim as [Heq|Hin]; [done|].
  by apply elem_of_nil in Hin.
Qed.
End ReconcileProperties.

Section ListFacts.
Import Editor.
Context {A B : Type}.
Implicit Types (l : list A) (k : list B) (i j n : nat).

Lemma list_swap_length i j l : length (list_swap i j l) = length l.
Proof.
  unfold list_swap. destruct (l !! i), (l !! j); try done.
  by rewrite !length_insert.
Qed.

Lemma list_swap_lookup i j n l :
  (i < length l)%nat → (j < length l)%nat →
  list_swap i j l !! n
  = if decide (n = i) then l !! j else if decide (n = j) then l !! i else l !! n.
Proof.
  intros Hi Hj. unfold list_swap.
  destruct (lookup_lt_is_Some_2 l i Hi) as [x Hx].
  destruct (lookup_lt_is_Some_2 l j Hj) as [y Hy].
  rewrite Hx, Hy. destruct (decide (n = i)) as [->|Hni].
  - rewrite list_lookup_insert_eq; [done|]. by rewrite length_insert.
  - rewrite list_lookup_insert_ne by done.
    destruct (decide (n = j)) as [->|Hnj].
    + by rewrite list_lookup_insert_eq.
    + by rewrite list_lookup_insert_ne.
Qed.

Lemma list_swap_twice i j l :
  (i < length l)%nat → (j < length l)%nat →
  list_swap i j (list_swap i j l) = l.
Proof.
  intros Hi Hj. apply list_eq. intros n.
  rewrite list_swap_lookup by (by rewrite list_swap_length).
  rewrite !list_swap_lookup by done.
  repeat case_decide; simplify_eq; done.
Qed.

Lemma zip_list_swap i j l k :
  length l = length k → (i < length l)%nat → (j < length l)%nat →
  zip (list_swap i j l) (list_swap i j k) = list_swap i j (zip l k).
Proof.
  intros Hlen Hi Hj. unfold list_swap.
  destruct (lookup_lt_is_Some_2 l i Hi) as [x Hx].
  destruct (lookup_lt_is_Some_2 l j Hj) as [y Hy].
  destruct (lookup_lt_is_Some_2 k i ltac:(lia)) as [x' Hx'].
  destruct (lookup_lt_is_Some_2 k j ltac:(lia)) as [y' Hy'].
  rewrite !lookup_zip_with, Hx, Hy, Hx', Hy'. simpl.
  by rewrite <- !insert_zip_with.
Qed.

Lemma zip_delete i l k : zip (delete i l) (delete i k) = delete i (zip l k).
Proof.
  revert i k. induction l as [|x l IH]; intros i [|y k]; simpl.
  - by destruct i.
  - by destruct i.
  - destruct i; simpl; [|by destruct (delete i l)]. by destruct l.
  - destruct i; simpl; [done|]. by rewrite IH.
Qed.


Lemma filter_index_delete (removed start : nat) l :
  filter_index (λ index, negb (Z.eqb (Z.of_nat index) (Z.of_nat (start + removed))))
    start l
  = delete removed l.
Proof.
  revert removed start. induction l as [|x l IH]; intros removed start; simpl.
  - by destruct removed.
  - destruct removed as [|removed].
    + rewrite Nat.add_0_r, Z.eqb_refl. simpl.
      clear IH. generalize (eq_refl (S start)).
      generalize (S start) at 1 3. intros first Hfirst.
      assert (start < first)%nat as Hlt by lia. clear Hfirst.
      revert first Hlt. induction l as [|y l IH]; intros first Hlt; simpl; [done|].
      destruct (Z.eqb_spec (Z.of_nat first) (Z.of_nat start)); [lia|].
      simpl. f_equal. apply IH. lia.
    + destruct (Z.eqb_spec (Z.of_nat start) (Z.of_nat (start + S removed)));
        [lia|]. simpl. f_equal.
      replace (start + S removed)%nat with (S start + removed)%nat by lia.
      apply IH.
Qed.
End ListFacts.

Section HandlerProperties.
Import Editor.
Context (F : FieldArray) (laws : FieldArrayLaws F).

Lemma arr_get_in_range (a : JsArray) (i : Z) (x : option PageComponentData) :
  0 ≤ i → items a !! Z.to_nat i = Some x → arr_get a i = x.
Proof.
  intros Hi Hx. unfold arr_get.
  destruct (Z.ltb_spec i 0); [lia|]. by rewrite Hx.
Qed.

Lemma arr_set_in_range (a : JsArray) (i : Z) (v : option PageComponentData) :
  0 ≤ i < arr_length a →
  arr_set a i v = {| items := <[Z.to_nat i := v]> (items a); named := named a |}.
Proof.
  intros Hi. unfold arr_set.
  destruct (Z.ltb_spec i 0); [lia|].
  destruct (Z.ltb_spec i (arr_length a)); [done|lia].
Qed.

(** The three assignments of [handleChangeOrder] exchange two elements of
    the array when both indices hold one. *)
Lemma arr_exchange_in_range (a : JsArray) (pos newPos : Z) :
  0 ≤ pos < arr_length a → 0 ≤ newPos < arr_length a →
  arr_set (arr_set a newPos (arr_get a pos)) pos (arr_get a newPos)
  = {| items := list_swap (Z.to_nat pos) (Z.to_nat newPos) (items a);
       named := named a |}.
Proof.
  intros Hpos HnewPos. unfold arr_length in *.
  destruct (lookup_lt_is_Some_2 (items a) (Z.to_nat pos) ltac:(lia)) as [x Hx].
  destruct (lookup_lt_is_Some_2 (items a) (Z.to_nat newPos) ltac:(lia))
    as [y Hy].
  rewrite (arr_get_in_range a pos x), (arr_get_in_range a newPos y)
    by (done || lia).
  rewrite (arr_set_in_range a newPos) by (unfold arr_length; lia).
  rewrite arr_set_in_range
    by (unfold arr_length; simpl; rewrite length_insert; lia).
  simpl. unfold list_swap. by rewrite Hx, Hy.
Qed.

Lemma handleChangeOrder_blocked (dir : Direction) (pos : Z) (s : EditorState) :
  ¬ (0 ≤ target dir pos < arr_length (bound_components s)) →
  handleChangeOrder dir pos s = s.
Proof.
  intros Hout. unfold handleChangeOrder.
  destruct (Z.ltb_spec (target dir pos) 0); simpl; [done|].
  destruct (Z.geb_spec (target dir pos) (arr_length (bound_components s)));
    [done|lia].
Qed.

Lemma handleChangeOrder_in_range (dir : Direction) (pos : Z)
    (s : EditorState) :
  aligned s →
  0 ≤ pos < arr_length (componentsRef_current s) →
  0 ≤ target dir pos < arr_length (componentsRef_current s) →
  handleChangeOrder dir pos s
  = {| componentsRef_current :=
         {| items := list_swap (Z.to_nat pos) (Z.to_nat (target dir pos))
                       (items (componentsRef_current s));
            named := named (componentsRef_current s) |};
       components := SameAsRef;
       form_values := list_swap (Z.to_nat pos) (Z.to_nat (target dir pos))
                        (form_values s) |}.
Proof.
  intros [Hbound Hlen] Hpos Htarget. unfold handleChangeOrder, bound_components.
  rewrite Hbound.
  destruct (Z.ltb_spec (target dir pos) 0); [lia|]. simpl.
  destruct (Z.geb_spec (target dir pos) (arr_length (componentsRef_current s)));
    [lia|].
  rewrite arr_exchange_in_range by done.
  rewrite swap_spec by (unfold arr_length in *; lia).
  done.
Qed.

Lemma handleChangeOrder_aligned (dir : Direction) (pos : Z) (s : EditorState) :
  aligned s →
  0 ≤ pos < arr_length (componentsRef_current s) →
  aligned (handleChangeOrder dir pos s).
Proof.
  intros Haligned Hpos.
  destruct (decide (0 ≤ target dir pos < arr_length (componentsRef_current s)))
    as [Htarget|Htarget].
  - rewrite handleChangeOrder_in_range by done.
    destruct Haligned as [Hbound Hlen]. split; [done|]. simpl.
    by rewrite !list_swap_length.
  - rewrite handleChangeOrder_blocked; [done|].
    unfold bound_components. by rewrite (proj1 Haligned).
Qed.

Lemma rerender_aligned (s : EditorState) : aligned s → rerender s = s.
Proof. intros [Hbound _]. destruct s. simpl in Hbound. by subst. Qed.

Lemma arr_filter_out_in_range (a : JsArray) (index : Z) :
  0 ≤ index →
  items (arr_filter_out a index) = delete (Z.to_nat index) (items a).
Proof.
  intros Hindex. unfold arr_filter_out. simpl.
  rewrite <- (filter_index_delete (Z.to_nat index) 0 (items a)). simpl.
  by rewrite Z2Nat.id.
Qed.

Lemma Remove_in_range (index : Z) (s : EditorState) :
  length (items (componentsRef_current s)) = length (form_values s) →
  0 ≤ index < arr_length (componentsRef_current s) →
  items (componentsRef_current (Remove index s))
  = delete (Z.to_nat index) (items (componentsRef_current s))
  ∧ form_values (Remove index s) = delete (Z.to_nat index) (form_values s)
  ∧ components (Remove index s) = SameAsRef.
Proof.
  intros Hlen Hindex. unfold Remove, rerender, handleRemoveComponent.
  cbn [componentsRef_current form_values components].
  rewrite arr_filter_out_in_range by lia.
  rewrite remove_spec by (unfold arr_length in *; lia). done.
Qed.

Lemma Add_appends (name : string) (s : EditorState) :
  items (componentsRef_current (Add name s))
  = items (componentsRef_current s)
      ++ [Some {| component := name; props := None |}]
  ∧ form_values (Add name s) = form_values s ++ [[]]
  ∧ components (Add name s) = SameAsRef.
Proof.
  unfold Add, rerender, handleAddComponent. simpl. by rewrite append_spec.
Qed.

Lemma Save_keeps_state (template : string) (settled : Result Response)
    (s : EditorState) :
  Save template settled s = s.
Proof.
  unfold Save, saveProps.
  destruct (mapFormDataToComponents _ _); [|done]. by destruct settled.
Qed.

Lemma step_aligned (s s' : EditorState) : aligned s → step s s' → aligned s'.
Proof.
  intros Haligned Hstep. destruct Hstep as [dir pos s Hpos|index s Hindex|name s|template settled s].
  - unfold Reorder.
    rewrite rerender_aligned; by apply handleChangeOrder_aligned.
  - destruct (Remove_in_range index s (proj2 Haligned) Hindex)
      as (Hitems & Hvalues & Hbound).
    split; [done|]. rewrite Hitems, Hvalues, !length_delete.
    + by rewrite (proj2 Haligned).
    + apply lookup_lt_is_Some_2. rewrite <- (proj2 Haligned).
      unfold arr_length in Hindex. lia.
    + apply lookup_lt_is_Some_2. unfold arr_length in Hindex. lia.
  - destruct (Add_appends name s) as (Hitems & Hvalues & Hbound).
    split; [done|]. rewrite Hitems, Hvalues, !length_app.
    by rewrite (proj2 Haligned).
  - by rewrite Save_keeps_state.
Qed.

Lemma useEditorOperations_aligned (initialComponents : list PageComponentData) :
  aligned (useEditorOperations initialComponents).
Proof.
  split; [done|]. simpl. unfold mapComponentsToFormData.
  by rewrite length_fmap, length_map.
Qed.

Lemma reachable_aligned (initialComponents : list PageComponentData)
    (s : EditorState) :
  reachable initialComponents s → aligned s.
Proof.
  induction 1 as [|s s' _ IH Hstep].
  - apply useEditorOperations_aligned.
  - by apply (step_aligned s s').
Qed.
End HandlerProperties.

Lemma plain_field_array_laws : Editor.FieldArrayLaws Editor.plain_field_array.
Proof.
  split; simpl.
  - intros i j l Hi Hj.
    destruct (Z.leb_spec 0 i); [|lia]. destruct (Z.leb_spec 0 j); [done|lia].
  - intros i l Hi. destruct (Z.leb_spec 0 i); [done|lia].
  - done.
Qed.

Section BridgeTheorems.
Import Editor.
Context (F : FieldArray) (laws : FieldArrayLaws F).


(** C8, as the code has it.  At a position of the list whose neighbour in
    the given direction is a position of the list too, reordering twice with
    the same arguments gives back the state it started from, reference list
    and form values included. *)
Theorem reorder_twice_restores (dir : Direction) (pos : Z) (s : EditorState) :
  aligned s →
  0 ≤ pos < arr_length (componentsRef_current s) →
  0 ≤ target dir pos < arr_length (componentsRef_current s) →
  handleChangeOrder dir pos (handleChangeOrder dir pos s) = s
  ∧ Reorder dir pos (Reorder dir pos s) = s.
Proof.
  intros Haligned Hpos Htarget.
  assert (handleChangeOrder dir pos (handleChangeOrder dir pos s) = s) as Htwice.
  { pose proof (handleChangeOrder_aligned F laws dir pos s Haligned Hpos)
      as Haligned'.
    rewrite (handleChangeOrder_in_range F laws dir pos s) in * by done.
    rewrite (handleChangeOrder_in_range F laws);
      [|done|unfold arr_length in *; simpl; rewrite list_swap_length; lia..].
    simpl. destruct Haligned as [Hbound Hlen].
    rewrite !list_swap_twice by (unfold arr_length in *; lia).
    destruct s as [[] ? ?]. simpl in *. by subst. }
  split; [done|]. unfold Reorder.
  rewrite (rerender_aligned (handleChangeOrder dir pos s))
    by (by apply (handleChangeOrder_aligned F laws)).
  rewrite Htwice. by apply rerender_aligned.
Qed.

(** C9.  In a state whose two lists have the same length, adding a
    component and then removing at the index of the added entry gives back
    the reference list and the form values there were. *)
Theorem add_then_remove_restores (name : string) (s : EditorState) :
  length (items (componentsRef_current s)) = length (form_values s) →
  let added := arr_length (componentsRef_current s) in
  (items (componentsRef_current
            (handleRemoveComponent added (handleAddComponent name s)))
   = items (componentsRef_current s)
   ∧ form_values (handleRemoveComponent added (handleAddComponent name s))
     = form_values s)
  ∧ (items (componentsRef_current (Remove added (Add name s)))
     = items (componentsRef_current s)
     ∧ form_values (Remove added (Add name s)) = form_values s).
Proof.
  intros Hlen added.
  assert (items (componentsRef_current
                   (handleRemoveComponent added (handleAddComponent name s)))
          = items (componentsRef_current s)
          ∧ form_values (handleRemoveComponent added (handleAddComponent name s))
            = form_values s) as Hhandlers.
  { unfold handleRemoveComponent, handleAddComponent.
    cbn [componentsRef_current form_values components]. split.
    - rewrite arr_filter_out_in_range by (unfold added, arr_length; lia).
      unfold added, arr_length, arr_push. simpl.
      rewrite Nat2Z.id, delete_middle. by rewrite app_nil_r.
    - rewrite append_spec.
      rewrite remove_spec
        by (rewrite length_app; unfold added, arr_length; simpl; lia).
      unfold added, arr_length. rewrite Nat2Z.id, Hlen, delete_middle.
      by rewrite app_nil_r. }
  split; [done|]. exact Hhandlers.
Qed.
End BridgeTheorems.

Section BridgeExamples.
Import Editor.


Lemma reorder_twice_restores_witness :
  let s := useEditorOperations [sample_hero; sample_footer] in
  @handleChangeOrder plain_field_array Next 0
    (@handleChangeOrder plain_field_array Next 0 s) = s
  ∧ @Reorder plain_field_array Next 0 (@Reorder plain_field_array Next 0 s) = s.
Proof.
  intros s.
  apply (reorder_twice_restores plain_field_array plain_field_array_laws).
  - split; reflexivity.
  - unfold arr_length; simpl; lia.
  - unfold arr_length; simpl; lia.
Defined.

Lemma add_then_remove_restores_witness :
  let s := useEditorOperations [sample_hero; sample_footer] in
  (items (componentsRef_current
            (@handleRemoveComponent plain_field_array 2
               (@handleAddComponent plain_field_array "Banner" s)))
   = [Some sample_hero; Some sample_footer]
   ∧ form_values (@handleRemoveComponent plain_field_array 2
                    (@handleAddComponent plain_field_array "Banner" s))
     = [[("title", JStr "Hi")]; []])
  ∧ (items (componentsRef_current
              (@Remove plain_field_array 2 (@Add plain_field_array "Banner" s)))
     = [Some sample_hero; Some sample_footer]
     ∧ form_values (@Remove plain_field_array 2
                      (@Add plain_field_array "Banner" s))
       = [[("title", JStr "Hi")]; []]).
Proof.
  intros s.
  exact (add_then_remove_restores plain_field_array plain_field_array_laws
           "Banner" s eq_refl).
Defined.


(** The run behind it: the third entry is removed, then the first is moved
    down by the handler of the same render. *)
Example reorder_after_remove_run :
  let s := @handleChangeOrder plain_field_array Next 0
             (@handleRemoveComponent plain_field_array 2
                (useEditorOperations
                   [sample_hero; sample_footer; sample_footer])) in
  paired s = [(Some sample_hero, []); (Some sample_footer, [("title", JStr "Hi")])]
  ∧ length (items (componentsRef_current s)) = length (form_values s).
Proof. split; reflexivity. Qed.

(** Reordering the first entry towards [Prev], or the last towards [Next],
    changes nothing. *)
Example reorder_at_the_ends :
  let s := useEditorOperations [sample_hero; sample_footer] in
  @handleChangeOrder plain_field_array Prev 0 s = s
  ∧ @handleChangeOrder plain_field_array Next 1 s = s.
Proof. split; reflexivity. Qed.

Example reorder_exchanges_both_lists :
  let s := @handleChangeOrder plain_field_array Next 0
             (useEditorOperations [sample_hero; sample_footer]) in
  items (componentsRef_current s) = [Some sample_footer; Some sample_hero]
  ∧ form_values s = [[]; [("title", JStr "Hi")]].
Proof. split; reflexivity. Qed.

(** From one past the end, towards [Prev]: the guard lets the call through,
    the reference list grows by an [undefined] element, and a second call
    does not take it back. *)
Example reorder_from_past_the_end :
  let s := useEditorOperations [sample_hero; sample_footer] in
  items (componentsRef_current (@handleChangeOrder plain_field_array Prev 2 s))
  = [Some sample_hero; None; Some sample_footer]
  ∧ items (componentsRef_current
             (@handleChangeOrder plain_field_array Prev 2
                (@handleChangeOrder plain_field_array Prev 2 s)))
    = [Some sample_hero; Some sample_footer; None].
Proof. split; reflexivity. Qed.

(** C8 as stated fails: the neighbour being in bounds is not enough. *)
Lemma reorder_twice_past_the_end_differs :
  ¬ (∀ (dir : Direction) (pos : Z) (s : EditorState),
       aligned s →
       0 ≤ target dir pos < arr_length (componentsRef_current s) →
       items (componentsRef_current
                (@handleChangeOrder plain_field_array dir pos
                   (@handleChangeOrder plain_field_array dir pos s)))
       = items (componentsRef_current s)
       ∧ form_values (@handleChangeOrder plain_field_array dir pos
                        (@handleChangeOrder plain_field_array dir pos s))
         = form_values s).
Proof.
  intros Hclaim.
  destruct (Hclaim Prev 2 (useEditorOperations [sample_hero; sample_footer])) as [Hitems _].
  - split; reflexivity.
  - unfold arr_length; simpl; lia.
  - discriminate Hitems.
Qed.
End BridgeExamples.

(** ** Component discoverer *)

Section PathFacts.
Import Dev.

Lemma string_app_cons (ch : ascii) (a b : string) :
  String ch a +:+ b = String ch (a +:+ b).
Proof. reflexivity. Qed.

Lemma string_app_assoc (a b c : string) : (a +:+ b) +:+ c = a +:+ (b +:+ c).
Proof.
  induction a as [|ch a IH]; [done|]. rewrite !string_app_cons. by rewrite IH.
Qed.

Lemma substring_whole (s : string) :
  String.substring 0 (String.length s) s = s.
Proof. induction s as [|ch s IH]; [done|]. simpl. by rewrite IH. Qed.

Lemma substring_from_app (a b : string) :
  substring_from (String.length a) (a +:+ b) = b.
Proof.
  unfold substring_from. induction a as [|ch a IH].
  - simpl. rewrite Nat.sub_0_r. apply substring_whole.
  - rewrite string_app_cons. simpl. apply IH.
Qed.

Lemma below_cons (name : string) (rest : list string) :
  below (name :: rest) = String "/" (name +:+ below rest).
Proof. reflexivity. Qed.

(** Where a separator-free name ends inside a path. *)
Lemma name_then_rest (a b r1 r2 : string) :
  has_slash a = false → has_slash b = false →
  (r1 = "" ∨ ∃ r, r1 = String "/" r) → (r2 = "" ∨ ∃ r, r2 = String "/" r) →
  a +:+ r1 = b +:+ r2 → a = b ∧ r1 = r2.
Proof.
  revert b. induction a as [|c a IH]; intros [|d b] Ha Hb Hr1 Hr2 Heq.
  - done.
  - exfalso. simpl in Hb. apply orb_false_iff in Hb as [Hd _].
    rewrite string_app_cons in Heq. simpl in Heq.
    destruct Hr1 as [->|[r ->]]; [done|]. injection Heq as <- _.
    by rewrite Ascii.eqb_refl in Hd.
  - exfalso. simpl in Ha. apply orb_false_iff in Ha as [Hc _].
    rewrite string_app_cons in Heq. simpl in Heq.
    destruct Hr2 as [->|[r ->]]; [done|]. injection Heq as -> _.
    by rewrite Ascii.eqb_refl in Hc.
  - rewrite !string_app_cons in Heq. injection Heq as -> Heq.
    simpl in Ha, Hb. apply orb_false_iff in Ha as [_ Ha].
    apply orb_false_iff in Hb as [_ Hb].
    destruct (IH b Ha Hb Hr1 Hr2 Heq) as [-> ->]. done.
Qed.

Lemma below_boundary (segments : list string) :
  below segments = "" ∨ ∃ r, below segments = String "/" r.
Proof. destruct segments; [by left|right]. rewrite below_cons. eauto. Qed.

Lemma below_inj (segments1 segments2 : list string) :
  Forall plain_name segments1 → Forall plain_name segments2 →
  below segments1 = below segments2 → segments1 = segments2.
Proof.
  intros Hplain1. revert segments2.
  induction Hplain1 as [|name1 rest1 [Hname1 _] _ IH];
    intros segments2 Hplain2 Heq.
  - destruct segments2; [done|]. by rewrite below_cons in Heq.
  - destruct Hplain2 as [|name2 rest2 [Hname2 _] Hrest2].
    + by rewrite below_cons in Heq.
    + rewrite !below_cons in Heq. injection Heq as Heq.
      destruct (name_then_rest _ _ _ _ Hname1 Hname2
                  (below_boundary rest1) (below_boundary rest2) Heq)
        as [-> Hrest].
      f_equal. by apply IH.
Qed.

Lemma entry_path_below (root name : string) (segments : list string) :
  entry_path root name +:+ below segments = root +:+ below (name :: segments).
Proof.
  unfold entry_path. rewrite below_cons, !string_app_assoc. done.
Qed.
End PathFacts.

Section TreeFacts.
Import Dev.

(** Induction on a directory tree, with the hypothesis for every child. *)
Lemma FsNode_tree_ind (P : FsNode → Prop) :
  (∀ name, P (FsFile name)) →
  (∀ name, P (FsSymlink name)) →
  (∀ name children, Forall P children → P (FsDir name children)) →
  ∀ n, P n.
Proof.
  intros Hfile Hlink Hdir. fix IH 1. intros [name|name|name children].
  - apply Hfile.
  - apply Hlink.
  - apply Hdir. induction children as [|child children IHchildren].
    + constructor.
    + constructor; [apply IH|apply IHchildren].
Qed.

Lemma well_formed_children (children : list FsNode) :
  foldr and True (map well_formed children) ↔ Forall well_formed children.
Proof.
  induction children as [|child children IH]; simpl.
  - split; [constructor|done].
  - rewrite IH, Forall_cons. done.
Qed.

Lemma files_of_head (n : FsNode) (segments : list string) :
  segments ∈ files_of n → head segments = Some (node_name n).
Proof.
  destruct n as [name|name|name children]; simpl.
  - intros Hin. apply list_elem_of_singleton in Hin. by subst.
  - intros Hin. by apply elem_of_nil in Hin.
  - intros Hin. apply list_elem_of_fmap in Hin as (rest & -> & _). done.
Qed.

Lemma files_of_listing_head (listing : list FsNode) (segments : list string) :
  segments ∈ concat (map files_of listing) →
  ∃ n, n ∈ listing ∧ head segments = Some (node_name n).
Proof.
  induction listing as [|n listing IH]; simpl.
  - intros Hin. by apply elem_of_nil in Hin.
  - rewrite elem_of_app. intros [Hin|Hin].
    + exists n. split; [left|by apply files_of_head].
    + destruct (IH Hin) as (n' & Hn' & Hhead). exists n'. split; [by right|done].
Qed.

Lemma files_of_listing_NoDup (listing : list FsNode) :
  NoDup (map node_name listing) →
  Forall (λ n, NoDup (files_of n)) listing →
  NoDup (concat (map files_of listing)).
Proof.
  induction listing as [|n listing IH]; simpl; intros Hnames Hfiles.
  - constructor.
  - apply NoDup_cons in Hnames as [Hfresh Hnames].
    apply Forall_cons in Hfiles as [Hn Hfiles].
    apply NoDup_app. split; [done|]. split; [|by apply IH].
    intros segments Hhere Hthere.
    apply files_of_head in Hhere.
    destruct (files_of_listing_head _ _ Hthere) as (n' & Hn' & Hhead).
    apply Hfresh. rewrite Hhere in Hhead. injection Hhead as ->.
    apply list_elem_of_fmap. by exists n'.
Qed.

Lemma files_of_NoDup (n : FsNode) : well_formed n → NoDup (files_of n).
Proof.
  induction n as [name|name|name children IH] using FsNode_tree_ind;
    simpl; intros (_ & Hwf).
  - apply NoDup_singleton.
  - constructor.
  - destruct Hwf as [Hnames Hchildren].
    apply well_formed_children in Hchildren.
    apply (NoDup_fmap_2 (cons name)).
    apply files_of_listing_NoDup; [done|].
    apply Forall_forall. intros child Hchild.
    rewrite Forall_forall in IH, Hchildren. by apply IH, Hchildren.
Qed.

Lemma Forall_concat_map {A B : Type} (Q : B → Prop) (f : A → list B)
    (l : list A) :
  Forall (λ x, Forall Q (f x)) l → Forall Q (concat (map f l)).
Proof.
  induction 1 as [|x l Hx _ IH]; simpl; [constructor|].
  apply Forall_app. by split.
Qed.

Lemma files_of_plain (n : FsNode) :
  well_formed n → Forall (Forall plain_name) (files_of n).
Proof.
  induction n as [name|name|name children IH] using FsNode_tree_ind;
    simpl; intros (Hname & Hwf).
  - apply Forall_singleton. by apply Forall_singleton.
  - constructor.
  - destruct Hwf as [_ Hchildren].
    apply well_formed_children in Hchildren.
    apply Forall_fmap.
    assert (Forall (Forall plain_name) (concat (map files_of children)))
      as Hbelow.
    { apply Forall_concat_map, Forall_forall. intros child Hchild.
      rewrite Forall_forall in IH, Hchildren. by apply IH, Hchildren. }
    eapply Forall_impl; [exact Hbelow|]. intros segments Hplain. simpl.
    by constructor.
Qed.

Lemma files_of_listing_plain (listing : list FsNode) :
  Forall well_formed listing →
  Forall (Forall plain_name) (concat (map files_of listing)).
Proof.
  intros Hwf. apply Forall_concat_map.
  eapply Forall_impl; [exact Hwf|]. apply files_of_plain.
Qed.
End TreeFacts.

Section WalkFacts.
Import Dev.

Lemma string_app_nil_r (s : string) : s +:+ "" = s.
Proof. induction s as [|ch s IH]; [done|]. by rewrite string_app_cons, IH. Qed.

Lemma below_singleton (root name : string) :
  root +:+ below [name] = entry_path root name.
Proof. by rewrite <- entry_path_below, string_app_nil_r. Qed.

Lemma entries_below_directory (root name : string)
    (files : list (list string)) :
  entry_at root <$> filter (listed root) (map (cons name) files)
  = entry_at (entry_path root name)
      <$> filter (listed (entry_path root name)) files.
Proof.
  induction files as [|segments files IH]; [done|]. simpl.
  assert (listed (entry_path root name) segments
          = listed root (name :: segments))
    as Hsame by (unfold listed; by rewrite entry_path_below).
  rewrite !filter_cons.
  destruct (decide (listed root (name :: segments))) as [Hyes|Hno].
  - rewrite decide_True by (by rewrite Hsame).
    rewrite !fmap_cons. f_equal; [|done].
    unfold entry_at. by rewrite entry_path_below.
  - by rewrite decide_False by (by rewrite Hsame).
Qed.

Lemma entries_of_listing (root : string) (listing : list FsNode) :
  Forall (λ n, ∀ root, walk_node root n
                       = entry_at root <$> filter (listed root) (files_of n))
         listing →
  walk root listing
  = entry_at root <$> filter (listed root) (concat (map files_of listing)).
Proof.
  unfold walk. induction 1 as [|n listing Hn _ IH]; [done|]. simpl.
  by rewrite Hn, IH, filter_app, fmap_app.
Qed.

Lemma walk_node_files (n : FsNode) (root : string) :
  walk_node root n = entry_at root <$> filter (listed root) (files_of n).
Proof.
  revert root.
  induction n as [name|name|name children IH] using FsNode_tree_ind;
    intros root.
  - cbn [walk_node files_of]. rewrite filter_cons, filter_nil.
    assert (listed root [name] = (has_ext (entry_path root name) = true))
      as Hsame by (unfold listed; by rewrite (below_singleton root name)).
    destruct (has_ext (entry_path root name)) eqn:Hext.
    + rewrite decide_True by (by rewrite Hsame).
      rewrite fmap_cons. unfold entry_at.
      by rewrite (below_singleton root name).
    + by rewrite decide_False by (by rewrite Hsame).
  - done.
  - simpl. rewrite entries_below_directory.
    apply (entries_of_listing (entry_path root name) children IH).
Qed.

Lemma walk_files (root : string) (listing : list FsNode) :
  walk root listing
  = entry_at root <$> filter (listed root) (concat (map files_of listing)).
Proof.
  apply entries_of_listing, Forall_forall. intros n _ root'.
  apply walk_node_files.
Qed.

Lemma plain_url_laws : UrlLaws plain_url id.
Proof.
  split.
  - done.
  - done.
  - intros root segments _. unfold toFileUrl, plain_url.
    by rewrite list_fmap_id, string_app_assoc.
Qed.
End WalkFacts.

Section DiscovererProperties.
Import Dev.
Context (U : UrlApi).

Lemma foldl_push_entry (componentsDir root : string)
    (files : list (list string)) (pushed : list string) :
  foldl (push_entry (toFileUrl componentsDir)) pushed (entry_at root <$> files)
  = pushed
    ++ ((λ segments, relative_url componentsDir (root +:+ below segments))
          <$> files).
Proof.
  revert pushed. induction files as [|segments files IH]; intros pushed.
  - by rewrite app_nil_r.
  - rewrite !fmap_cons. simpl. rewrite IH.
    unfold push_entry. simpl. by rewrite <- app_assoc.
Qed.

Lemma foldl_push_entries (componentsDir : string) (entries : list WalkEntry)
    (pushed : list string) :
  foldl (push_entry (toFileUrl componentsDir)) pushed entries
  = pushed
    ++ ((λ entry, relative_url componentsDir (path entry))
          <$> filter (λ entry, isFile entry = true) entries).
Proof.
  revert pushed. induction entries as [|entry entries IH]; intros pushed.
  - by rewrite app_nil_r.
  - simpl. rewrite IH, filter_cons. unfold push_entry.
    destruct (isFile entry).
    + rewrite decide_True by done. by rewrite fmap_cons, <- app_assoc.
    + by rewrite decide_False by done.
Qed.

Lemma collectComponents_walked (dir : string) (run : FsRun) :
  readDir_outcome run = Ok tt →
  walk_outcome run = Ok tt ∨ walk_outcome run = Throw NotFound →
  collectComponents dir run
  = Ok (sort ((λ entry, relative_url (join dir "./components") (path entry))
              <$> filter (λ entry, isFile entry = true) (walk_entries run))).
Proof.
  intros Hread Hwalk. unfold collectComponents, collect_try.
  rewrite Hread, foldl_push_entries.
  by destruct Hwalk as [-> | ->].
Qed.

Lemma collectComponents_present (dir : string) (listing : list FsNode) :
  collectComponents dir (run_on (join dir "./components") (Present listing))
  = Ok (sort ((λ segments,
                 relative_url (join dir "./components")
                   (join dir "./components" +:+ below segments))
              <$> filter (listed (join dir "./components"))
                    (concat (map files_of listing)))).
Proof.
  unfold collectComponents, collect_try. simpl.
  by rewrite walk_files, foldl_push_entry.
Qed.

Lemma collectComponents_sorted (dir : string) (run : FsRun)
    (found : list string) :
  collectComponents dir run = Ok found → StronglySorted String.le found.
Proof.
  unfold collectComponents.
  destruct (collect_try (join dir "./components") run)
    as [pushed [[| |msg]|]];
    intros [= <-]; apply StronglySorted_merge_sort; apply _.
Qed.

Lemma collectComponents_not_found (dir : string) (run : FsRun) :
  readDir_outcome run = Throw NotFound → collectComponents dir run = Ok [].
Proof.
  intros Hmissing. unfold collectComponents, collect_try. by rewrite Hmissing.
Qed.

Lemma collectComponents_propagates (dir : string) (run : FsRun)
    (err : JsError) :
  err ≠ NotFound →
  readDir_outcome run = Throw err
  ∨ (readDir_outcome run = Ok tt ∧ walk_outcome run = Throw err) →
  collectComponents dir run = Throw err.
Proof.
  intros Hother [Hread|[Hread Hwalk]]; unfold collectComponents, collect_try;
    rewrite Hread; [|rewrite Hwalk]; by destruct err.
Qed.

(** C7.  When the components folder does not exist (reading it throws
    [NotFound]) [collectComponents] returns the empty list; an error of any
    other kind, thrown while reading or walking the folder, is thrown on to
    the caller. *)
Theorem missing_folder_no_components (dir : string) :
  collectComponents dir (run_on (join dir "./components") Missing) = Ok []
  ∧ (∀ run : FsRun,
       readDir_outcome run = Throw NotFound → collectComponents dir run = Ok [])
  ∧ (∀ (run : FsRun) (err : JsError),
       err ≠ NotFound →
       readDir_outcome run = Throw err
       ∨ (readDir_outcome run = Ok tt ∧ walk_outcome run = Throw err) →
       collectComponents dir run = Throw err).
Proof.
  split; [|split].
  - by apply collectComponents_not_found.
  - apply collectComponents_not_found.
  - apply collectComponents_propagates.
Qed.

Context (escape : string → string) (laws : UrlLaws U escape).

(** The cut of [collectComponents] leaves the part of the URL below the
    folder: a separator and an escaped name for each step down. *)
Lemma relative_url_below (root : string) (segments : list string) :
  Forall plain_name segments →
  relative_url root (root +:+ below segments) = below (escape <$> segments).
Proof.
  intros Hplain. unfold relative_url.
  by rewrite toFileUrl_below, substring_from_app.
Qed.

Lemma escaped_below_inj (segments1 segments2 : list string) :
  Forall plain_name segments1 → Forall plain_name segments2 →
  below (escape <$> segments1) = below (escape <$> segments2) →
  segments1 = segments2.
Proof.
  intros Hplain1 Hplain2 Hsame.
  assert (Inj (=) (=) escape) as Hinj by (intros a b; apply escape_inj).
  apply (inj (fmap escape)).
  apply below_inj; [| |done]; apply Forall_fmap;
    (eapply Forall_impl; [eassumption|]); intros name; apply escape_plain.
Qed.

Lemma file_entries_of_tree (root : string) (files : list (list string)) :
  filter (λ entry, isFile entry = true) (entry_at root <$> files)
  = entry_at root <$> files.
Proof.
  induction files as [|segments files IH]; [done|].
  rewrite fmap_cons, filter_cons_True by done. by rewrite IH.
Qed.

Lemma found_urls_NoDup (root : string) (listing : list FsNode) :
  well_formed_listing listing →
  NoDup ((λ segments, below (escape <$> segments))
         <$> filter (listed root) (concat (map files_of listing))).
Proof.
  intros [Hnames Hwf]. apply well_formed_children in Hwf.
  pose proof (files_of_listing_plain listing Hwf) as Hplain.
  rewrite Forall_forall in Hplain.
  apply NoDup_fmap_2_strong.
  - intros segments1 segments2 Hin1 Hin2 Hsame.
    apply list_elem_of_filter in Hin1 as [_ Hin1].
    apply list_elem_of_filter in Hin2 as [_ Hin2].
    apply escaped_below_inj; [by apply Hplain..|done].
  - apply NoDup_filter, files_of_listing_NoDup; [done|].
    eapply Forall_impl; [exact Hwf|]. apply files_of_NoDup.
Qed.

(** What is pushed for the files of a tree, up to the order of the walk. *)
Lemma pushed_for_tree (root : string) (listing : list FsNode)
    (entries : list WalkEntry) :
  well_formed_listing listing →
  entries ≡ₚ entry_at root
               <$> filter (listed root) (concat (map files_of listing)) →
  (λ entry, relative_url root (path entry))
    <$> filter (λ entry, isFile entry = true) entries
  ≡ₚ (λ segments, below (escape <$> segments))
       <$> filter (listed root) (concat (map files_of listing)).
Proof.
  intros [_ Hwf] Hentries. apply well_formed_children in Hwf.
  pose proof (files_of_listing_plain listing Hwf) as Hplain.
  rewrite Forall_forall in Hplain.
  rewrite Hentries, file_entries_of_tree, <- list_fmap_compose.
  rewrite (list_fmap_ext _ (λ segments, below (escape <$> segments)));
    [done|].
  intros i segments Hi. simpl.
  apply relative_url_below, Hplain.
  apply list_elem_of_lookup_2 in Hi.
  by apply list_elem_of_filter in Hi as [_ Hi].
Qed.

(** C6.  Whatever the file system does, a list [collectComponents] returns
    is sorted in ascending order of its strings.  On a directory tree, where
    the walk yields one file entry for each regular file whose path ends in
    one of the four extensions, in any order, it returns a list that is
    sorted, holds no string twice, and holds exactly the relative paths of
    those files: for each of them the names that lead from the components
    folder to the file, escaped as in a URL, each after a slash. *)
Theorem discovered_components_sorted_unique (dir : string) :
  (∀ (run : FsRun) (found : list string),
     collectComponents dir run = Ok found → StronglySorted String.le found)
  ∧ (∀ (listing : list FsNode) (run : FsRun),
       well_formed_listing listing →
       readDir_outcome run = Ok tt →
       walk_outcome run = Ok tt →
       walk_entries run
       ≡ₚ entry_at (join dir "./components")
            <$> filter (listed (join dir "./components"))
                  (concat (map files_of listing)) →
       ∃ found : list string,
         collectComponents dir run = Ok found
         ∧ StronglySorted String.le found
         ∧ NoDup found
         ∧ ∀ url : string,
             url ∈ found ↔
             ∃ segments : list string,
               segments ∈ concat (map files_of listing)
               ∧ has_ext (join dir "./components" +:+ below segments) = true
               ∧ url = below (escape <$> segments)).
Proof.
  split; [apply collectComponents_sorted|].
  intros listing run Hwf Hread Hwalk Hentries.
  pose proof (pushed_for_tree _ _ _ Hwf Hentries) as Hpushed.
  eexists. split; [apply collectComponents_walked; [done|by left]|].
  split; [|split].
  - apply StronglySorted_merge_sort; apply _.
  - unfold sort. rewrite merge_sort_Permutation, Hpushed.
    by apply found_urls_NoDup.
  - intros url. unfold sort. rewrite merge_sort_Permutation, Hpushed.
    rewrite list_elem_of_fmap. split.
    + intros (segments & -> & Hin).
      apply list_elem_of_filter in Hin as [Hlisted Hin]. by exists segments.
    + intros (segments & Hin & Hlisted & ->). exists segments.
      split; [done|]. by apply list_elem_of_filter.
Qed.
End DiscovererProperties.

Lemma sample_listing_well_formed : Dev.well_formed_listing Dev.sample_listing.
Proof.
  unfold Dev.well_formed_listing, Dev.sample_listing. simpl.
  unfold Dev.plain_name.
  repeat split; try done;
    apply (bool_decide_unpack (NoDup _)); vm_compute; exact I.
Qed.

Lemma missing_folder_no_components_witness :
  @Dev.collectComponents Dev.plain_url "/project"
    {| Dev.readDir_outcome := Throw NotFound; Dev.walk_entries := [];
       Dev.walk_outcome := Throw NotFound |} = Ok []
  ∧ @Dev.collectComponents Dev.plain_url "/project"
      {| Dev.readDir_outcome := Throw (Failure "permission denied");
         Dev.walk_entries := [];
         Dev.walk_outcome := Throw (Failure "permission denied") |}
    = Throw (Failure "permission denied").
Proof.
  split.
  - apply (proj1 (proj2 (missing_folder_no_components Dev.plain_url "/project"))).
    reflexivity.
  - apply (proj2 (proj2 (missing_folder_no_components Dev.plain_url "/project"))).
    + discriminate.
    + left. reflexivity.
Defined.

Lemma discovered_components_sorted_unique_witness :
  ∃ found : list string,
    @Dev.collectComponents Dev.plain_url "/project"
      (Dev.run_on "/project/components" (Dev.Present Dev.sample_listing))
    = Ok found
    ∧ StronglySorted String.le found
    ∧ NoDup found
    ∧ ∀ url : string,
        url ∈ found ↔
        ∃ segments : list string,
          segments ∈ concat (map Dev.files_of Dev.sample_listing)
          ∧ Dev.has_ext (@Dev.join Dev.plain_url "/project" "./components"
                           +:+ Dev.below segments) = true
          ∧ url = Dev.below (id <$> segments).
Proof.
  apply (proj2 (discovered_components_sorted_unique Dev.plain_url id
                  plain_url_laws "/project")
           Dev.sample_listing
           (Dev.run_on "/project/components" (Dev.Present Dev.sample_listing))
           sample_listing_well_formed).
  - reflexivity.
  - reflexivity.
  - vm_compute. reflexivity.
Defined.

(** The path library of the examples on a project folder, on the root
    folder, and on a folder written with a separator at its end. *)
Example plain_url_joins :
  @Dev.join Dev.plain_url "/project" "./components" = "/project/components"
  ∧ @Dev.join Dev.plain_url "/" "./components" = "/components"
  ∧ @Dev.join Dev.plain_url "/project/" "./deco.gen.ts"
    = "/project/deco.gen.ts".
Proof. repeat split; vm_compute; reflexivity. Qed.

(** On the root folder the paths come back with their leading slash. *)
Example root_folder_discovered :
  @Dev.collectComponents Dev.plain_url "/"
    (Dev.run_on "/components"
       (Dev.Present [Dev.FsFile "b.tsx"; Dev.FsFile "a.tsx"]))
  = Ok ["/a.tsx"; "/b.tsx"].
Proof. vm_compute. reflexivity. Qed.

Example sample_listing_discovered :
  @Dev.collectComponents Dev.plain_url "/project"
    (Dev.run_on "/project/components"
       (Dev.Present Dev.sample_listing))
  = Ok ["/a.tsx"; "/b.tsx"; "/ui/Button.tsx"; "/ui/a.ts"].
Proof. vm_compute. reflexivity. Qed.

(** The scenario of the specification. *)
Example two_files_discovered_in_order :
  @Dev.collectComponents Dev.plain_url "/project"
    (Dev.run_on "/project/components"
       (Dev.Present [Dev.FsFile "b.tsx"; Dev.FsFile "a.tsx"]))
  = Ok ["/a.tsx"; "/b.tsx"].
Proof. vm_compute. reflexivity. Qed.

(** A folder that disappears while it is walked: what was found so far is
    returned. *)
Example folder_lost_during_walk :
  @Dev.collectComponents Dev.plain_url "/project"
    {| Dev.readDir_outcome := Ok tt;
       Dev.walk_entries :=
         [{| Dev.path := "/project/components/b.tsx"; Dev.isFile := true |}];
       Dev.walk_outcome := Throw NotFound |}
  = Ok ["/b.tsx"].
Proof. vm_compute. reflexivity. Qed.

Lemma manifest_changed_iff_paths_differ_witness :
  Dev.generate_calls
    (@Dev.dev Dev.sample_loader Dev.plain_url "/project" "file:///project/main.ts"
       true
       {| Dev.previous_manifest :=
            Some {| Dev.routes := ["/index.tsx"]; Dev.islands := [];
                    Dev.components := []; Dev.schemas := [] |};
          Dev.fresh_collect := Ok (["/index.tsx"], ["/Hero.tsx"]);
          Dev.components_run :=
            Dev.run_on "/project/components" (Dev.Present Dev.sample_listing);
          Dev.completion_order := [4; 2; 0; 1; 3]%nat;
          Dev.generate_outcome := Ok tt;
          Dev.onListen_outcome := Ok tt;
          Dev.import_outcome := Ok tt |}).1
  = 1%nat.
Proof.
  apply (proj2 (proj2 (proj2
           (manifest_changed_iff_paths_differ
              {| Dev.routes := ["/index.tsx"]; Dev.islands := ["/Hero.tsx"];
                 Dev.components :=
                   ["/a.tsx"; "/b.tsx"; "/ui/Button.tsx"; "/ui/a.ts"];
                 Dev.schemas :=
                   [ {| Dev.component := "/Hero.tsx";
                        Dev.schema := JObj [("title", JStr "string")] |} ] |}
              {| Dev.routes := ["/index.tsx"]; Dev.islands := [];
                 Dev.components := []; Dev.schemas := [] |})))
           Dev.sample_loader Dev.plain_url).
  - reflexivity.
  - reflexivity.
  - vm_compute. reflexivity.
  - vm_compute. reflexivity.
Defined.

(** * Further properties *)

(** ** Schema collector: rejected loads and returned entries *)

Lemma mapComponentToSchemaMap_rejected (L : Dev.ModuleLoader)
    (directory componentName : string) (type : Dev.ComponentType)
    (e : JsError) :
  Dev.mapComponentToSchemaMap directory componentName type = Throw e ↔
  Dev.importModule directory type componentName = Throw e.
Proof.
  unfold Dev.mapComponentToSchemaMap.
  destruct (Dev.importModule directory type componentName) as [m|e'].
  - by destruct (truthy (Dev.module_schema m)).
  - split; by intros [= ->].
Qed.

(** X1.  When every issued load settles and one of them rejects,
    [collectComponentsSchemas] rejects with the error of a rejected load:
    no list of the schemas that did load is returned. *)
Theorem rejected_load_rejects_collection (L : Dev.ModuleLoader)
    (directory : string) (islands components : list string)
    (order : list nat) (request : Dev.ComponentType * string) (e : JsError) :
  Dev.complete_order (length (Dev.load_requests islands components)) order →
  request ∈ Dev.load_requests islands components →
  Dev.importModule directory request.1 request.2 = Throw e →
  ∃ (request' : Dev.ComponentType * string) (e' : JsError),
    request' ∈ Dev.load_requests islands components
    ∧ Dev.importModule directory request'.1 request'.2 = Throw e'
    ∧ Dev.collectComponentsSchemas islands components directory order
      = Some (Throw e').
Proof.
  intros Horder Hin Hload. unfold Dev.collectComponentsSchemas.
  rewrite componentSchemasPromises_requests.
  apply list_elem_of_lookup in Hin as [i Hi].
  destruct (promiseAll_rejected
              (map (λ request, Dev.mapComponentToSchemaMap directory
                                 request.2 request.1)
                   (Dev.load_requests islands components)) order i e)
    as (j & e' & Hj & ->).
  - by rewrite length_map.
  - change (map ?f ?l) with (f <$> l). rewrite list_lookup_fmap, Hi. simpl.
    f_equal. by apply mapComponentToSchemaMap_rejected.
  - change (map ?f ?l) with (f <$> l) in Hj.
    rewrite list_lookup_fmap in Hj.
    destruct (Dev.load_requests islands components !! j) as [request'|] eqn:Hj';
      [|done].
    simpl in Hj. injection Hj as Hj.
    exists request', e'. split; [by eapply list_elem_of_lookup_2|].
    split; [|done]. by apply mapComponentToSchemaMap_rejected.
Qed.

Lemma rejected_load_rejects_collection_witness :
  ∃ (request' : Dev.ComponentType * string) (e' : JsError),
    request' ∈ Dev.load_requests ["/Hero.tsx"] ["/Plain.tsx"; "/Broken.tsx"]
    ∧ @Dev.importModule Dev.sample_loader "/project" request'.1 request'.2
      = Throw e'
    ∧ @Dev.collectComponentsSchemas Dev.sample_loader ["/Hero.tsx"]
        ["/Plain.tsx"; "/Broken.tsx"] "/project" [1; 2; 0]%nat
      = Some (Throw e').
Proof.
  apply (rejected_load_rejects_collection Dev.sample_loader "/project"
           ["/Hero.tsx"] ["/Plain.tsx"; "/Broken.tsx"] [1; 2; 0]%nat
           (Dev.TComponents, "/Broken.tsx") (Failure "syntax")).
  - intros i Hi. destruct i as [|[|[|i]]]; [| | |simpl in Hi; lia];
      repeat first [apply list_elem_of_here | apply list_elem_of_further].
  - vm_compute.
    repeat first [apply list_elem_of_here | apply list_elem_of_further].
  - reflexivity.
Defined.

(** X2.  A list [collectComponentsSchemas] returns lists, in the order of the
    loads, the entries of the modules with a truthy [schema]: every load had
    succeeded, every entry carries a truthy schema, there are no more entries
    than names given, and the schema template prints the schema of each entry,
    never [null]. *)
Theorem returned_entries_truthy (L : Dev.ModuleLoader) (directory : string)
    (islands components : list string) (order : list nat)
    (result : list Dev.SchemaMap) :
  Dev.collectComponentsSchemas islands components directory order
  = Some (Ok result) →
  (∀ request, request ∈ Dev.load_requests islands components →
     ∃ m, Dev.importModule directory request.1 request.2 = Ok m)
  ∧ result = omap (Dev.entry_of directory)
               (Dev.load_requests islands components)
  ∧ Forall (λ entry, truthy (Dev.schema entry) = true) result
  ∧ (length result ≤ length islands + length components)%nat
  ∧ ∀ (J : Dev.JsonApi) (entry : Dev.SchemaMap),
      entry ∈ result →
      Dev.templates_schemas entry
      = Dev.dq +:+ Dev.component entry +:+ Dev.dq +:+ ": "
        +:+ Dev.JSON_stringify (Dev.schema entry) +:+ ",".
Proof.
  unfold Dev.collectComponentsSchemas.
  destruct (Dev.promiseAll _ order) as [[values|e]|] eqn:Hall; [|done..].
  intros [= <-]. apply promiseAll_fulfilled_inv in Hall.
  rewrite componentSchemasPromises_requests in Hall.
  assert (∀ request, request ∈ Dev.load_requests islands components →
            ∃ m, Dev.importModule directory request.1 request.2 = Ok m)
    as Hloaded.
  { intros request Hin. apply list_elem_of_lookup in Hin as [i Hi].
    apply (f_equal (λ l, l !! i)) in Hall.
    change (map ?f ?l) with (f <$> l) in Hall.
    rewrite !list_lookup_fmap, Hi in Hall. simpl in Hall.
    unfold Dev.mapComponentToSchemaMap in Hall.
    destruct (Dev.importModule directory request.1 request.2) as [m|e];
      [by exists m|].
    by destruct (values !! i). }
  assert (values = Dev.entry_of directory
                     <$> Dev.load_requests islands components) as ->.
  { apply list_eq. intros i. apply (f_equal (λ l, l !! i)) in Hall.
    change (map ?f ?l) with (f <$> l) in Hall.
    rewrite !list_lookup_fmap in Hall. rewrite list_lookup_fmap.
    destruct (Dev.load_requests islands components !! i) as [request|];
      destruct (values !! i) as [v|]; simpl in *; try done.
    injection Hall as Hall. unfold Dev.entry_of. rewrite Hall.
    by destruct v. }
  rewrite omap_id_fmap.
  assert (Forall (λ entry, truthy (Dev.schema entry) = true)
            (omap (Dev.entry_of directory)
               (Dev.load_requests islands components))) as Htruthy.
  { apply Forall_forall. intros entry Hin.
    apply list_elem_of_omap in Hin as (request & Hin & Hentry).
    destruct (Hloaded request Hin) as [m Hm]. unfold Dev.entry_of in Hentry.
    rewrite (mapComponentToSchemaMap_loaded _ _ _ _ Hm) in Hentry.
    destruct (truthy (Dev.module_schema m)) eqn:Hm'; [|done].
    by injection Hentry as <-. }
  split; [done|]. split; [done|]. split; [done|]. split.
  - etrans; [apply length_omap_le|]. unfold Dev.load_requests.
    rewrite length_app, !length_map.
    pose proof (length_filter (λ name, name ∉ islands) components). lia.
  - intros J entry Hin. rewrite Forall_forall in Htruthy.
    unfold Dev.templates_schemas. by rewrite (Htruthy entry Hin).
Qed.

Lemma returned_entries_truthy_witness :
  Forall (λ entry, truthy (Dev.schema entry) = true)
    [ {| Dev.component := "/Hero.tsx";
         Dev.schema := JObj [("title", JStr "string")] |} ].
Proof.
  exact (proj1 (proj2 (proj2
           (returned_entries_truthy Dev.sample_loader "/project"
              ["/Hero.tsx"; "/Zero.tsx"] ["/Plain.tsx"; "/Hero.tsx"]
              [2; 0; 1]%nat _ falsy_schema_is_dropped)))).
Defined.

(** ** Generated manifest *)

Section AliasFacts.
Import Dev.

Lemma pretty_N_go_other_head (x : N) (s : string) :
  (0 < x)%N ∨ other_head s → other_head (pretty_N_go x s).
Proof.
  revert s. induction (N.lt_wf_0 x) as [x _ IH]. intros s Hs.
  destruct (decide (x = 0%N)) as [->|Hx].
  - rewrite pretty_N_go_0. destruct Hs as [Hs|Hs]; [lia|done].
  - rewrite pretty_N_go_step by lia. apply IH.
    + apply N.div_lt; lia.
    + right. eexists _, _. split; [done|].
      unfold pretty_N_char. by repeat case_match.
Qed.

Lemma pretty_nat_other_head (i : nat) : other_head (pretty i).
Proof.
  unfold pretty, pretty_nat, pretty, pretty_N.
  case_decide as Hi.
  - by exists "0"%char, EmptyString.
  - apply pretty_N_go_other_head. left. lia.
Qed.

Lemma pretty_nat_no_dollar (i : nat) (rest : string) :
  pretty i ≠ String "$" rest.
Proof.
  destruct (pretty_nat_other_head i) as (c & rest' & Heq & Hc).
  rewrite Heq. by intros [= -> _].
Qed.

Lemma alias_inj (c1 c2 : Category) (i1 i2 : nat) :
  alias c1 i1 = alias c2 i2 → c1 = c2 ∧ i1 = i2.
Proof.
  unfold alias. destruct c1, c2; rewrite ?string_app_cons; simpl;
    intros Heq; simplify_eq;
    try (split; [done|]; by apply (inj pretty));
    exfalso; repeat change ("" +:+ ?s) with s in Heq;
    first [ by apply pretty_nat_no_dollar in Heq
          | symmetry in Heq; by apply pretty_nat_no_dollar in Heq ].
Qed.
End AliasFacts.

(** X3.  Every import line binds the alias of its folder and index, the
    table line of the same file refers to that alias, and no two imports of a
    manifest share an alias: aliases differ between folders and between
    indices. *)
Theorem import_aliases_distinct (J : Dev.JsonApi) :
  (∀ (file : string) (i : nat),
     Dev.templates_routes_imports file i
     = "import * as " +:+ Dev.alias Dev.CRoutes i +:+ " from " +:+ Dev.dq
       +:+ "./routes" +:+ file +:+ Dev.dq +:+ ";"
     ∧ Dev.templates_routes_obj file i
       = Dev.JSON_stringify (JStr ("./routes" +:+ file)) +:+ ": "
         +:+ Dev.alias Dev.CRoutes i +:+ ","
     ∧ Dev.templates_islands_imports file i
       = "import * as " +:+ Dev.alias Dev.CIslands i +:+ " from " +:+ Dev.dq
         +:+ "./islands" +:+ file +:+ Dev.dq +:+ ";"
     ∧ Dev.templates_islands_obj file i
       = Dev.JSON_stringify (JStr ("./islands" +:+ file)) +:+ ": "
         +:+ Dev.alias Dev.CIslands i +:+ ","
     ∧ Dev.templates_components_imports file i
       = "import * as " +:+ Dev.alias Dev.CComponents i +:+ " from " +:+ Dev.dq
         +:+ "./components" +:+ file +:+ Dev.dq +:+ ";"
     ∧ Dev.templates_components_obj file i
       = Dev.JSON_stringify (JStr ("./components" +:+ file)) +:+ ": "
         +:+ Dev.alias Dev.CComponents i +:+ ",")
  ∧ (∀ (c1 c2 : Dev.Category) (i1 i2 : nat),
       Dev.alias c1 i1 = Dev.alias c2 i2 → c1 = c2 ∧ i1 = i2).
Proof.
  split; [|apply alias_inj].
  intros file i.
  unfold Dev.templates_routes_imports, Dev.templates_routes_obj,
    Dev.templates_islands_imports, Dev.templates_islands_obj,
    Dev.templates_components_imports, Dev.templates_components_obj, Dev.alias.
  rewrite !string_app_assoc. repeat split; reflexivity.
Qed.

Lemma import_aliases_distinct_witness :
  Dev.CRoutes = Dev.CRoutes ∧ 12%nat = 12%nat.
Proof.
  exact (proj2 (import_aliases_distinct Dev.sample_json)
           Dev.CRoutes Dev.CRoutes 12%nat 12%nat eq_refl).
Defined.

Lemma format_ok (content : string) (formatter : string → Dev.FormatterRun)
    (out : string) :
  Dev.format content formatter = Ok out ↔
  Dev.run_outcome (formatter content) = Ok tt
  ∧ Dev.pipeTo_outcome (formatter content) = Ok tt
  ∧ Dev.output_outcome (formatter content) = Ok out
  ∧ ∃ code : Z, Dev.status_outcome (formatter content) = Ok code.
Proof.
  unfold Dev.format.
  destruct (Dev.run_outcome (formatter content)) as [[]|e1];
    [|split; [done|by intros (? & _)]].
  destruct (Dev.pipeTo_outcome (formatter content)) as [[]|e2];
    [|split; [done|by intros (_ & ? & _)]].
  destruct (Dev.output_outcome (formatter content)) as [out'|e3];
    [|split; [done|by intros (_ & _ & ? & _)]].
  destruct (Dev.status_outcome (formatter content)) as [code|e4].
  - split.
    + intros [= ->]. eauto.
    + by intros (_ & _ & [= ->] & _).
  - split; [done|]. by intros (_ & _ & _ & code & ?).
Qed.

(** X4.  [generate] writes a file exactly when the formatter started, took
    the text and printed an answer, whatever exit code it reports; what it
    writes, to the path the path library joins from the directory and
    [./deco.gen.ts], is what the formatter printed.  It succeeds exactly when
    that write succeeds too, and logs only then. *)
Theorem generate_writes_formatter_output (J : Dev.JsonApi) (U : Dev.UrlApi)
    (directory : string) (manifest : Dev.DevManifest)
    (formatter : string → Dev.FormatterRun) (write_outcome : Result unit) :
  let output := Dev.generate_output manifest in
  let run := Dev.generate directory manifest formatter write_outcome in
  (∀ manifestPath manifestStr : string,
     Dev.EvWriteTextFile manifestPath manifestStr ∈ run.1 ↔
     manifestPath = Dev.join directory "./deco.gen.ts"
     ∧ Dev.run_outcome (formatter output) = Ok tt
     ∧ Dev.pipeTo_outcome (formatter output) = Ok tt
     ∧ Dev.output_outcome (formatter output) = Ok manifestStr
     ∧ ∃ code : Z, Dev.status_outcome (formatter output) = Ok code)
  ∧ (run.2 = Ok tt ↔
     (∃ manifestStr, Dev.format output formatter = Ok manifestStr)
     ∧ write_outcome = Ok tt)
  ∧ (∀ message style : string,
       Dev.EvLog message style ∈ run.1 → run.2 = Ok tt).
Proof.
  intros output run. unfold run, Dev.generate. fold output.
  destruct (Dev.format output formatter) as [manifestStr|e] eqn:Hformat.
  - apply format_ok in Hformat.
    destruct write_outcome as [[]|e]; simpl; (split; [|split]).
    + intros manifestPath manifestStr'. rewrite !elem_of_cons, elem_of_nil.
      split.
      * intros [?|[[= -> ->]|[?|[]]]]; done.
      * intros (-> & _ & _ & Hout & _). right. left.
        destruct Hformat as (_ & _ & Hout' & _). congruence.
    + split; [eauto|done].
    + done.
    + intros manifestPath manifestStr'. rewrite !elem_of_cons, elem_of_nil.
      split.
      * intros [?|[[= -> ->]|[]]]; done.
      * intros (-> & _ & _ & Hout & _). right. left.
        destruct Hformat as (_ & _ & Hout' & _). congruence.
    + split; [done|]. by intros [_ ?].
    + intros message style. rewrite !elem_of_cons, elem_of_nil.
      by intros [?|[?|[]]].
  - simpl. split; [|split].
    + intros manifestPath manifestStr. rewrite elem_of_cons, elem_of_nil.
      split; [by intros [?|[]]|].
      intros (_ & Hrest). apply (format_ok output formatter) in Hrest.
      congruence.
    + split; [done|]. by intros [[? ?] _].
    + intros message style. rewrite elem_of_cons, elem_of_nil.
      by intros [?|[]].
Qed.

Lemma generate_writes_formatter_output_witness :
  Dev.EvWriteTextFile "/project/deco.gen.ts"
    (@Dev.generate_output Dev.sample_json
       {| Dev.routes := ["/index.tsx"]; Dev.islands := [];
          Dev.components := []; Dev.schemas := [] |})
  ∈ (@Dev.generate Dev.sample_json Dev.plain_url "/project"
       {| Dev.routes := ["/index.tsx"]; Dev.islands := [];
          Dev.components := []; Dev.schemas := [] |}
       (Dev.echo_formatter 1) (Ok tt)).1.
Proof.
  apply (proj1 (generate_writes_formatter_output Dev.sample_json Dev.plain_url
                  "/project"
                  {| Dev.routes := ["/index.tsx"]; Dev.islands := [];
                     Dev.components := []; Dev.schemas := [] |}
                  (Dev.echo_formatter 1) (Ok tt))).
  repeat split; try reflexivity. by exists 1.
Defined.

(** ** Runs of [dev] *)

Section DevRuns.
Import Dev.
Context (L : ModuleLoader) (U : UrlApi).

Lemma arraysEqual_nil (a : list string) : arraysEqual a [] = true ↔ a = [].
Proof. apply arraysEqual_true. Qed.

Lemma manifestChanged_same_paths (newManifest currentManifest : DevManifest) :
  routes newManifest = routes currentManifest →
  islands newManifest = islands currentManifest →
  components newManifest = components currentManifest →
  manifestChanged newManifest currentManifest = false.
Proof.
  intros Hr Hi Hc. unfold manifestChanged. rewrite Hr, Hi, Hc.
  by rewrite !(proj2 (arraysEqual_true _ _) eq_refl).
Qed.

Lemma manifestChanged_empty (newManifest : DevManifest) :
  manifestChanged newManifest
    {| islands := []; routes := []; components := []; schemas := [] |} = true
  ↔ routes newManifest ≠ [] ∨ islands newManifest ≠ []
    ∨ components newManifest ≠ [].
Proof.
  unfold manifestChanged. simpl.
  rewrite !orb_true_iff, !negb_true_iff, !arraysEqual_false. tauto.
Qed.

Lemma generate_calls_reaching_boot (dir entrypoint : string)
    (onListen : bool) (w : DevWorld) (collected_routes collected_islands
      found : list string) (collected_schemas : list SchemaMap) :
  fresh_collect w = Ok (collected_routes, collected_islands) →
  collectComponents dir (components_run w) = Ok found →
  collectComponentsSchemas collected_islands found dir (completion_order w)
  = Some (Ok collected_schemas) →
  generate_calls (dev dir entrypoint onListen w).1
  = if manifestChanged
         {| routes := collected_routes; islands := collected_islands;
            components := found; schemas := collected_schemas |}
         (current_manifest w)
    then 1%nat else 0%nat.
Proof.
  intros Hcollect Hfound Hschemas. unfold dev.
  rewrite Hcollect, Hfound, Hschemas.
  pose proof (generate_calls_boot dir entrypoint onListen w
                (current_manifest w)
                {| routes := collected_routes; islands := collected_islands;
                   components := found; schemas := collected_schemas |})
    as Hboot.
  by destruct (dev_boot _ _ _ _ _ _).
Qed.

(** X5.  On a first run (no previous manifest in the environment) that gets
    as far as comparing, [dev] calls [generate] exactly when a route, an
    island or a component was found: with nothing found it does not generate
    at all. *)
Theorem first_run_generates_iff_found (dir entrypoint : string)
    (onListen : bool) (w : DevWorld) (collected_routes collected_islands
      found : list string) (collected_schemas : list SchemaMap) :
  previous_manifest w = None →
  fresh_collect w = Ok (collected_routes, collected_islands) →
  collectComponents dir (components_run w) = Ok found →
  collectComponentsSchemas collected_islands found dir (completion_order w)
  = Some (Ok collected_schemas) →
  (generate_calls (dev dir entrypoint onListen w).1 = 1%nat ↔
     collected_routes ≠ [] ∨ collected_islands ≠ [] ∨ found ≠ [])
  ∧ (generate_calls (dev dir entrypoint onListen w).1 = 0%nat ↔
       collected_routes = [] ∧ collected_islands = [] ∧ found = []).
Proof.
  intros Hfirst Hcollect Hfound Hschemas.
  rewrite (generate_calls_reaching_boot _ _ _ _ _ _ _ _
             Hcollect Hfound Hschemas).
  unfold current_manifest. rewrite Hfirst.
  pose proof (manifestChanged_empty
                {| routes := collected_routes; islands := collected_islands;
                   components := found; schemas := collected_schemas |})
    as Hchanged. simpl in Hchanged.
  destruct (manifestChanged _ _).
  - split; [tauto|]. split; [done|].
    intros (-> & -> & ->). destruct (proj1 Hchanged eq_refl) as [?|[?|?]]; done.
  - split; [split; [done|]|split; [|done]].
    + intros Hfound'. by apply Hchanged in Hfound'.
    + intros _.
      assert (¬ (collected_routes ≠ [] ∨ collected_islands ≠ [] ∨ found ≠ []))
        as Hnone by (intros Hsome; by apply Hchanged in Hsome).
      clear Hchanged Hcollect Hfound Hschemas.
      destruct collected_routes, collected_islands, found; try done;
        exfalso; apply Hnone; naive_solver.
Qed.

(** X6.  Once a run of [dev] has stored its manifest in the environment,
    which it does before collecting schemas and before generating, a later
    run that starts from it and finds the same routes, islands and components
    never calls [generate]: not even when the earlier run failed while
    collecting schemas or generating. *)
Theorem rerun_on_same_files_never_generates (dir entrypoint entrypoint' : string)
    (onListen onListen' : bool) (w w' : DevWorld) (stored : DevManifest) :
  head (dev dir entrypoint onListen w).1 = Some (EvSetEnv stored) →
  previous_manifest w' = Some stored →
  fresh_collect w' = fresh_collect w →
  components_run w' = components_run w →
  generate_calls (dev dir entrypoint' onListen' w').1 = 0%nat.
Proof.
  intros Hstored Hprevious Hcollect Hrun.
  unfold dev in *. rewrite Hcollect, Hrun.
  destruct (fresh_collect w) as [[collected_routes collected_islands]|e];
    [|done].
  destruct (collectComponents dir (components_run w)) as [found|e]; [|done].
  assert (stored = {| routes := collected_routes; islands := collected_islands;
                      components := found; schemas := [] |}) as ->.
  { destruct (collectComponentsSchemas collected_islands found dir
                (completion_order w)) as [[ss|e]|];
      [|by injection Hstored..].
    destruct (dev_boot _ _ _ _ _ _). by injection Hstored. }
  destruct (collectComponentsSchemas collected_islands found dir
              (completion_order w')) as [[ss|e]|]; [|done..].
  pose proof (generate_calls_boot dir entrypoint' onListen' w'
                (current_manifest w')
                {| routes := collected_routes; islands := collected_islands;
                   components := found; schemas := ss |}) as Hboot.
  destruct (dev_boot _ _ _ _ _ _) as [events outcome].
  change (generate_calls events = 0%nat). simpl in Hboot.
  rewrite Hboot. unfold current_manifest. rewrite Hprevious.
  by rewrite manifestChanged_same_paths.
Qed.

Lemma dev_boot_imports (dir entrypoint : string) (onListen : bool)
    (w : DevWorld) (currentManifest newManifest : DevManifest) :
  (EvImport entrypoint
   ∈ (dev_boot dir entrypoint onListen w currentManifest newManifest).1 ↔
   (manifestChanged newManifest currentManifest = true →
    generate_outcome w = Ok tt)
   ∧ (onListen = true → onListen_outcome w = Ok tt))
  ∧ (EvImport entrypoint
     ∈ (dev_boot dir entrypoint onListen w currentManifest newManifest).1 →
     (dev_boot dir entrypoint onListen w currentManifest newManifest).2
     = import_outcome w).
Proof.
  unfold dev_boot.
  destruct (manifestChanged newManifest currentManifest),
    (generate_outcome w) as [[]|generate_error], onListen,
    (onListen_outcome w) as [[]|listener_error]; simpl;
    rewrite ?elem_of_cons, ?elem_of_nil; intuition congruence.
Qed.

(** X7.  In a run that starts with the variable of the previous manifest
    unset or holding a stored manifest, [dev] imports the entry point exactly
    when the routes, the components and the schemas were all collected,
    [generate], if it was called, did not throw, and the listener, if one was
    given, did not throw; the run then ends as the import ends.  After a
    failed collection, a failed [generate] or a failed listener the entry
    point is not imported. *)
Theorem entrypoint_imported_iff (dir entrypoint : string) (onListen : bool)
    (w : DevWorld) :
  (EvImport entrypoint ∈ (dev dir entrypoint onListen w).1 ↔
   ∃ (collected_routes collected_islands found : list string)
     (collected_schemas : list SchemaMap),
     fresh_collect w = Ok (collected_routes, collected_islands)
     ∧ collectComponents dir (components_run w) = Ok found
     ∧ collectComponentsSchemas collected_islands found dir
         (completion_order w) = Some (Ok collected_schemas)
     ∧ (manifestChanged
          {| routes := collected_routes; islands := collected_islands;
             components := found; schemas := collected_schemas |}
          (current_manifest w) = true →
        generate_outcome w = Ok tt)
     ∧ (onListen = true → onListen_outcome w = Ok tt))
  ∧ (EvImport entrypoint ∈ (dev dir entrypoint onListen w).1 →
     (dev dir entrypoint onListen w).2 = Some (import_outcome w)).
Proof.
  unfold dev.
  destruct (fresh_collect w) as [[collected_routes collected_islands]|e].
  2:{ simpl. split; [split|]; [by intros ?%elem_of_nil| |by intros ?%elem_of_nil].
      by intros (? & ? & ? & ? & ? & _). }
  destruct (collectComponents dir (components_run w)) as [found|e].
  2:{ simpl. split; [split|]; [by intros ?%elem_of_nil| |by intros ?%elem_of_nil].
      by intros (? & ? & ? & ? & _ & ? & _). }
  destruct (collectComponentsSchemas collected_islands found dir
              (completion_order w)) as [[collected_schemas|e]|] eqn:Hschemas.
  - pose proof (dev_boot_imports dir entrypoint onListen w (current_manifest w)
                  {| routes := collected_routes; islands := collected_islands;
                     components := found; schemas := collected_schemas |})
      as [Himports Hends].
    destruct (dev_boot _ _ _ _ _ _) as [events outcome]. simpl in *.
    assert (EvImport entrypoint
            ∈ EvSetEnv {| routes := collected_routes;
                          islands := collected_islands;
                          components := found; schemas := [] |} :: events
            ↔ EvImport entrypoint ∈ events) as Hlater
      by (rewrite elem_of_cons; intuition congruence).
    rewrite Hlater, Himports. split.
    + split.
      * intros [Hgenerate Hlisten].
        exists collected_routes, collected_islands, found, collected_schemas.
        by rewrite Hschemas.
      * intros (rs & isl & cs & ss & [= <- <-] & [= <-] & Hss & Hok).
        rewrite Hschemas in Hss. by injection Hss as <-.
    + intros Hin. f_equal. by apply Hends, Himports.
  - simpl. split; [split|].
    + rewrite elem_of_cons, elem_of_nil. by intros [?|[]].
    + intros (rs & isl & cs & ss & [= <- <-] & [= <-] & Hss & _).
      by rewrite Hschemas in Hss.
    + rewrite elem_of_cons, elem_of_nil. by intros [?|[]].
  - simpl. split; [split|].
    + rewrite elem_of_cons, elem_of_nil. by intros [?|[]].
    + intros (rs & isl & cs & ss & [= <- <-] & [= <-] & Hss & _).
      by rewrite Hschemas in Hss.
    + rewrite elem_of_cons, elem_of_nil. by intros [?|[]].
Qed.
End DevRuns.

Lemma first_run_generates_iff_found_witness :
  Dev.generate_calls
    (@Dev.dev Dev.sample_loader Dev.plain_url "/project"
       "file:///project/main.ts" false Dev.empty_world).1 = 0%nat.
Proof.
  apply (proj2 (first_run_generates_iff_found Dev.sample_loader Dev.plain_url
                  "/project" "file:///project/main.ts" false Dev.empty_world
                  [] [] [] [] eq_refl eq_refl eq_refl eq_refl)).
  done.
Defined.

Lemma rerun_on_same_files_never_generates_witness :
  Dev.generate_calls
    (@Dev.dev Dev.sample_loader Dev.plain_url "/project"
       "file:///project/main.ts" true
       (Dev.sample_world
          (Some {| Dev.routes := ["/index.tsx"]; Dev.islands := ["/Hero.tsx"];
                   Dev.components :=
                     ["/a.tsx"; "/b.tsx"; "/ui/Button.tsx"; "/ui/a.ts"];
                   Dev.schemas := [] |})
          (Ok tt))).1 = 0%nat.
Proof.
  apply (rerun_on_same_files_never_generates Dev.sample_loader Dev.plain_url
           "/project" "file:///project/main.ts" "file:///project/main.ts"
           true true
           (Dev.sample_world None (Throw (Failure "formatter")))
           (Dev.sample_world
              (Some {| Dev.routes := ["/index.tsx"];
                       Dev.islands := ["/Hero.tsx"];
                       Dev.components :=
                         ["/a.tsx"; "/b.tsx"; "/ui/Button.tsx"; "/ui/a.ts"];
                       Dev.schemas := [] |})
              (Ok tt))
           {| Dev.routes := ["/index.tsx"]; Dev.islands := ["/Hero.tsx"];
              Dev.components :=
                ["/a.tsx"; "/b.tsx"; "/ui/Button.tsx"; "/ui/a.ts"];
              Dev.schemas := [] |}).
  - vm_compute. reflexivity.
  - reflexivity.
  - reflexivity.
  - reflexivity.
Defined.

(** A run whose [generate] throws has stored its manifest all the same and
    stops before the entry point. *)
Example failed_generate_run :
  (@Dev.dev Dev.sample_loader Dev.plain_url "/project" "file:///project/main.ts"
     true (Dev.sample_world None (Throw (Failure "formatter")))).2
  = Some (Throw (Failure "formatter"))
  ∧ Dev.EvImport "file:///project/main.ts"
    ∉ (@Dev.dev Dev.sample_loader Dev.plain_url "/project"
         "file:///project/main.ts" true
         (Dev.sample_world None (Throw (Failure "formatter")))).1.
Proof.
  split; [vm_compute; reflexivity|].
  intros Hin. vm_compute in Hin.
  repeat (apply elem_of_cons in Hin as [Hin|Hin]; [discriminate Hin|]).
  by apply elem_of_nil in Hin.
Qed.

(** A listener that throws ends the run before the entry point. *)
Example failed_listener_run :
  @Dev.dev Dev.sample_loader Dev.plain_url "/project" "file:///project/main.ts"
    true
    {| Dev.previous_manifest := None;
       Dev.fresh_collect := Ok (["/index.tsx"], []);
       Dev.components_run := Dev.run_on "/project/components" Dev.Missing;
       Dev.completion_order := [];
       Dev.generate_outcome := Ok tt;
       Dev.onListen_outcome := Throw (Failure "listener");
       Dev.import_outcome := Ok tt |}
  = ([ Dev.EvSetEnv {| Dev.routes := ["/index.tsx"]; Dev.islands := [];
                       Dev.components := []; Dev.schemas := [] |};
       Dev.EvGenerate "/project"
         {| Dev.routes := ["/index.tsx"]; Dev.islands := [];
            Dev.components := []; Dev.schemas := [] |};
       Dev.EvOnListen ],
     Some (Throw (Failure "listener"))).
Proof. vm_compute. reflexivity. Qed.

(** ** Component discoverer: what a run returns *)

Section DiscovererRuns.
Import Dev.
Context (U : UrlApi).

(** X8.  When the folder can be read and the walk ends normally or with
    [NotFound], [collectComponents] returns the relative URLs of the file
    entries the walk had yielded, each as often as it was yielded and none
    for an entry that is not a file, in ascending order: entries yielded
    before a [NotFound] are kept, and nothing is removed as a duplicate. *)
Theorem walked_files_returned (dir : string) (run : FsRun) :
  readDir_outcome run = Ok tt →
  walk_outcome run = Ok tt ∨ walk_outcome run = Throw NotFound →
  ∃ found : list string,
    collectComponents dir run = Ok found
    ∧ found ≡ₚ (λ entry, relative_url (join dir "./components") (path entry))
               <$> filter (λ entry, isFile entry = true) (walk_entries run)
    ∧ length found
      = length (filter (λ entry, isFile entry = true) (walk_entries run))
    ∧ StronglySorted String.le found.
Proof.
  intros Hread Hwalk. eexists. split; [by apply collectComponents_walked|].
  split; [apply merge_sort_Permutation|]. split.
  - unfold sort. by rewrite merge_sort_Permutation, length_fmap.
  - apply StronglySorted_merge_sort; apply _.
Qed.

(** X9.  The order in which the walk yields its entries does not matter:
    two runs that yield the same entries in different orders return the same
    list. *)
Theorem listing_order_irrelevant (dir : string) (run1 run2 : FsRun) :
  readDir_outcome run1 = Ok tt → readDir_outcome run2 = Ok tt →
  walk_outcome run1 = Ok tt ∨ walk_outcome run1 = Throw NotFound →
  walk_outcome run2 = Ok tt ∨ walk_outcome run2 = Throw NotFound →
  walk_entries run1 ≡ₚ walk_entries run2 →
  collectComponents dir run1 = collectComponents dir run2.
Proof.
  intros Hread1 Hread2 Hwalk1 Hwalk2 Hsame.
  rewrite !collectComponents_walked by done. f_equal.
  apply (StronglySorted_unique String.le).
  - apply StronglySorted_merge_sort; apply _.
  - apply StronglySorted_merge_sort; apply _.
  - unfold sort. rewrite !merge_sort_Permutation. by rewrite Hsame.
Qed.
End DiscovererRuns.

Lemma walked_files_returned_witness :
  ∃ found : list string,
    @Dev.collectComponents Dev.plain_url "/project" Dev.lost_folder_run
    = Ok found
    ∧ found ≡ₚ (λ entry, @Dev.relative_url Dev.plain_url
                          (@Dev.join Dev.plain_url "/project" "./components")
                          (Dev.path entry))
               <$> filter (λ entry, Dev.isFile entry = true)
                     (Dev.walk_entries Dev.lost_folder_run)
    ∧ length found
      = length (filter (λ entry, Dev.isFile entry = true)
                  (Dev.walk_entries Dev.lost_folder_run))
    ∧ StronglySorted String.le found.
Proof.
  apply (walked_files_returned Dev.plain_url "/project" Dev.lost_folder_run).
  - reflexivity.
  - right. reflexivity.
Defined.

Example lost_folder_run_found :
  @Dev.collectComponents Dev.plain_url "/project" Dev.lost_folder_run
  = Ok ["/a.tsx"; "/b.tsx"; "/b.tsx"].
Proof. vm_compute. reflexivity. Qed.

Lemma listing_order_irrelevant_witness :
  @Dev.collectComponents Dev.plain_url "/project"
    (Dev.run_on "/project/components"
       (Dev.Present [Dev.FsFile "b.tsx"; Dev.FsFile "a.tsx"]))
  = @Dev.collectComponents Dev.plain_url "/project"
      (Dev.run_on "/project/components"
         (Dev.Present [Dev.FsFile "a.tsx"; Dev.FsFile "b.tsx"])).
Proof.
  apply (listing_order_irrelevant Dev.plain_url "/project").
  - reflexivity.
  - reflexivity.
  - left. reflexivity.
  - left. reflexivity.
  - vm_compute. apply Permutation_swap.
Defined.

(** ** Form bridge: what reconciling returns and when it throws *)

Section ReconcileOutcomes.
Import Editor.

Lemma mapFormDataToComponents_from_zip (formData : list ComponentProp)
    (cs : list PageComponentData) (index : nat)
    (pushed : list PageComponentData) :
  (index + length cs ≤ length formData)%nat →
  mapFormDataToComponents_from formData (Some <$> cs) index pushed
  = Ok (pushed ++ zip_with reconcile_entry cs (drop index formData)).
Proof.
  revert index pushed. induction cs as [|c cs IH]; intros index pushed Hlen.
  - simpl. by rewrite app_nil_r.
  - simpl in Hlen.
    rewrite fmap_cons. cbn [mapFormDataToComponents_from].
    destruct (formData !! index) as [bag|] eqn:Hbag.
    + rewrite IH by lia.
      rewrite (drop_S (A:=ComponentProp) formData bag index Hbag). simpl.
      by rewrite <- app_assoc.
    + apply (lookup_ge_None (A:=ComponentProp)) in Hbag. lia.
Qed.

Lemma mapFormDataToComponents_from_throws (formData : list ComponentProp)
    (current : list (option PageComponentData)) (index : nat)
    (pushed : list PageComponentData) :
  None ∈ current ∨ (length formData - index < length current)%nat →
  mapFormDataToComponents_from formData current index pushed = Throw TypeError.
Proof.
  revert index pushed.
  induction current as [|[c|] current IH]; intros index pushed Hbad.
  - destruct Hbad as [Hin|Hlt]; [by apply elem_of_nil in Hin|simpl in Hlt; lia].
  - simpl. destruct (formData !! index) as [bag|] eqn:Hbag; [|done].
    apply IH. apply (lookup_lt_Some (A:=ComponentProp)) in Hbag.
    destruct Hbad as [Hin|Hlt].
    + left. by apply elem_of_cons in Hin as [?|?].
    + right. simpl in Hlt. lia.
  - done.
Qed.

Lemma defined_or_hole (current : list (option PageComponentData)) :
  (∃ cs : list PageComponentData, current = Some <$> cs) ∨ None ∈ current.
Proof.
  induction current as [|[c|] current IH].
  - left. by exists [].
  - destruct IH as [[cs ->]|Hin].
    + left. by exists (c :: cs).
    + right. by apply list_elem_of_further.
  - right. apply list_elem_of_here.
Qed.

Lemma reconcile_cases (formData : list ComponentProp)
    (current : list (option PageComponentData)) :
  (∃ cs : list PageComponentData,
     current = Some <$> cs ∧ (length cs ≤ length formData)%nat)
  ∨ (None ∈ current ∨ (length formData < length current)%nat).
Proof.
  destruct (defined_or_hole current) as [[cs ->]|Hin]; [|by right; left].
  rewrite length_fmap.
  destruct (decide (length cs ≤ length formData)%nat); [left; by exists cs|].
  right. right. lia.
Qed.

Lemma mapFormDataToComponents_defined (formData : list ComponentProp)
    (cs : list PageComponentData) :
  (length cs ≤ length formData)%nat →
  mapFormDataToComponents formData (Some <$> cs)
  = Ok (zip_with reconcile_entry cs formData).
Proof.
  intros Hlen. unfold mapFormDataToComponents.
  by rewrite mapFormDataToComponents_from_zip.
Qed.

Lemma mapFormDataToComponents_Ok_inv (formData : list ComponentProp)
    (current : list (option PageComponentData))
    (reconciled : list PageComponentData) :
  mapFormDataToComponents formData current = Ok reconciled →
  ∃ cs : list PageComponentData,
    current = Some <$> cs ∧ (length cs ≤ length formData)%nat
    ∧ reconciled = zip_with reconcile_entry cs formData.
Proof.
  intros Hok. destruct (reconcile_cases formData current) as [(cs & -> & Hlen)|Hbad].
  - exists cs. rewrite mapFormDataToComponents_defined in Hok by done.
    by injection Hok as <-.
  - unfold mapFormDataToComponents in Hok.
    rewrite mapFormDataToComponents_from_throws in Hok; [done|].
    destruct Hbad as [?|?]; [by left|right; lia].
Qed.

(** X10.  [mapFormDataToComponents] returns exactly when every element of
    the current list is defined and the form data has an entry for each of
    them; it then pairs the components with the form entries by index and
    ignores form entries past the end of the current list.  In every other
    case, an [undefined] element or a form list that is too short, it throws
    a [TypeError]. *)
Theorem reconcile_returns_or_throws (formData : list ComponentProp)
    (current : list (option PageComponentData)) :
  (∀ cs : list PageComponentData,
     current = Some <$> cs → (length cs ≤ length formData)%nat →
     mapFormDataToComponents formData current
     = Ok (zip_with reconcile_entry cs (take (length cs) formData)))
  ∧ (None ∈ current ∨ (length formData < length current)%nat →
     mapFormDataToComponents formData current = Throw TypeError)
  ∧ ((∃ cs : list PageComponentData,
        current = Some <$> cs ∧ (length cs ≤ length formData)%nat)
     ∨ (None ∈ current ∨ (length formData < length current)%nat)).
Proof.
  split; [|split].
  - intros cs -> Hlen. rewrite mapFormDataToComponents_defined by done.
    f_equal. symmetry. apply zip_with_take_r'. lia.
  - intros Hbad. apply mapFormDataToComponents_from_throws.
    destruct Hbad as [?|?]; [by left|right; lia].
  - apply reconcile_cases.
Qed.

(** An [undefined] element, and a form list that is too short. *)
Example reconcile_throws_on_hole :
  mapFormDataToComponents [[]; []] [Some sample_hero; None] = Throw TypeError
  ∧ mapFormDataToComponents [[]] [Some sample_hero; Some sample_footer]
    = Throw TypeError.
Proof. split; reflexivity. Qed.

(** X11.  A list [mapFormDataToComponents] returns is as long as the
    current list and names the same components in the same order, and none
    of its entries carries an empty property bag. *)
Theorem reconciled_names_and_bags (formData : list ComponentProp)
    (current : list (option PageComponentData))
    (reconciled : list PageComponentData) :
  mapFormDataToComponents formData current = Ok reconciled →
  length reconciled = length current
  ∧ Some <$> (component <$> reconciled) = fmap component <$> current
  ∧ Forall (λ c, props c ≠ Some []) reconciled.
Proof.
  intros Hok.
  destruct (mapFormDataToComponents_Ok_inv _ _ _ Hok) as (cs & -> & Hlen & ->).
  split; [|split].
  - by rewrite length_zip_with_l, length_fmap.
  - rewrite <- !list_fmap_compose. clear Hok. revert formData Hlen.
    induction cs as [|c cs IH]; intros [|bag formData] Hlen; simpl in *;
      try lia; try done.
    f_equal. apply IH. lia.
  - clear Hok. revert formData Hlen.
    induction cs as [|c cs IH]; intros [|bag formData] Hlen; simpl in *;
      try lia; try (by constructor).
    constructor; [|apply IH; lia]. simpl. by destruct bag.
Qed.

Lemma reconciled_names_and_bags_witness :
  length [ {| component := "Hero"; props := None |};
           {| component := "Footer"; props := Some [("year", JNum 2022)] |} ]
  = length [Some sample_hero; Some sample_footer]
  ∧ Some <$> (component
              <$> [ {| component := "Hero"; props := None |};
                    {| component := "Footer";
                       props := Some [("year", JNum 2022)] |} ])
    = fmap component <$> [Some sample_hero; Some sample_footer]
  ∧ Forall (λ c, props c ≠ Some [])
      [ {| component := "Hero"; props := None |};
        {| component := "Footer"; props := Some [("year", JNum 2022)] |} ].
Proof.
  exact (reconciled_names_and_bags [[]; [("year", JNum 2022)]; []]
           [Some sample_hero; Some sample_footer] _ eq_refl).
Defined.

(** X12.  Read back as form data, a list [mapFormDataToComponents] returns
    is the form data it was given, cut to the length of the current list:
    the property bags of the current components play no part. *)
Theorem reconciled_carries_form_data (formData : list ComponentProp)
    (current : list (option PageComponentData))
    (reconciled : list PageComponentData) :
  mapFormDataToComponents formData current = Ok reconciled →
  mapComponentsToFormData reconciled = take (length current) formData.
Proof.
  intros Hok.
  destruct (mapFormDataToComponents_Ok_inv _ _ _ Hok) as (cs & -> & Hlen & ->).
  rewrite length_fmap. clear Hok. revert formData Hlen.
  induction cs as [|c cs IH]; intros [|bag formData] Hlen; simpl in *;
    try lia; try done.
  rewrite <- IH by lia. f_equal. by destruct bag.
Qed.

Lemma reconciled_carries_form_data_witness :
  mapComponentsToFormData
    [ {| component := "Hero"; props := None |};
      {| component := "Footer"; props := Some [("year", JNum 2022)] |} ]
  = take (length [Some sample_hero; Some sample_footer])
      [[]; [("year", JNum 2022)]; []].
Proof.
  exact (reconciled_carries_form_data [[]; [("year", JNum 2022)]; []]
           [Some sample_hero; Some sample_footer] _ eq_refl).
Defined.
End ReconcileOutcomes.

Lemma reconcile_returns_or_throws_witness :
  Editor.mapFormDataToComponents [[]; [("year", JNum 2022)]; []]
    (Some <$> [Editor.sample_hero; Editor.sample_footer])
  = Ok (zip_with Editor.reconcile_entry
          [Editor.sample_hero; Editor.sample_footer]
          (take (length [Editor.sample_hero; Editor.sample_footer])
             [[]; [("year", JNum 2022)]; []])).
Proof.
  apply (proj1 (reconcile_returns_or_throws _ _)); [reflexivity|simpl; lia].
Defined.

(** ** Form bridge: facts on exchanging two entries *)

Section SwapFacts.
Import Editor.
Context {A B : Type}.
Implicit Types (l : list A) (i j : nat).

Lemma list_swap_Permutation i j l : list_swap i j l ≡ₚ l.
Proof.
  unfold list_swap. destruct (l !! i) as [x|] eqn:Hx; [|done].
  destruct (l !! j) as [y|] eqn:Hy; [|done].
  by apply Permutation_insert_swap.
Qed.

Lemma list_swap_comm i j l : list_swap i j l = list_swap j i l.
Proof.
  unfold list_swap. destruct (l !! i) as [x|] eqn:Hx;
    destruct (l !! j) as [y|] eqn:Hy; try done.
  destruct (decide (i = j)) as [->|Hne]; [by simplify_eq|].
  by apply list_insert_insert_ne.
Qed.

Lemma list_swap_fmap (f : A → B) i j l :
  f <$> list_swap i j l = list_swap i j (f <$> l).
Proof.
  unfold list_swap. rewrite !list_lookup_fmap.
  destruct (l !! i) as [x|]; [|done]. destruct (l !! j) as [y|]; [|done].
  simpl. by rewrite !list_fmap_insert.
Qed.

Lemma delete_past_the_end i l : (length l ≤ i)%nat → delete i l = l.
Proof.
  revert i. induction l as [|x l IH]; intros [|i] Hlen; simpl in *;
    try done; try lia.
  f_equal. apply IH. lia.
Qed.

Lemma filter_index_all (keep : nat → bool) (start : nat) l :
  (∀ index, (start ≤ index < start + length l)%nat → keep index = true) →
  filter_index keep start l = l.
Proof.
  revert start. induction l as [|x l IH]; intros start Hkeep; simpl; [done|].
  rewrite Hkeep by (simpl; lia). f_equal. apply IH.
  intros index Hindex. apply Hkeep. simpl. lia.
Qed.
End SwapFacts.

(** ** Form bridge: what Save posts *)

Section SaveRuns.
Import Editor.
Context (F : FieldArray) (laws : FieldArrayLaws F).

Lemma step_defined (s s' : EditorState) :
  aligned s → step s s' →
  Forall is_Some (items (componentsRef_current s)) →
  Forall is_Some (items (componentsRef_current s')).
Proof.
  intros Haligned Hstep Hdefined.
  destruct Hstep as [dir pos s Hpos|index s Hindex|name s|template settled s].
  - unfold Reorder.
    rewrite rerender_aligned by (by apply (handleChangeOrder_aligned F laws)).
    destruct (decide (0 ≤ target dir pos < arr_length (componentsRef_current s)))
      as [Htarget|Htarget].
    + rewrite (handleChangeOrder_in_range F laws) by done. simpl.
      by rewrite list_swap_Permutation.
    + rewrite handleChangeOrder_blocked; [done|].
      unfold bound_components. by rewrite (proj1 Haligned).
  - destruct (Remove_in_range F laws index s (proj2 Haligned) Hindex)
      as (-> & _ & _).
    by apply Forall_delete.
  - destruct (Add_appends F laws name s) as (-> & _ & _).
    apply Forall_app. split; [done|]. by repeat constructor.
  - by rewrite Save_keeps_state.
Qed.

Lemma reachable_defined (initialComponents : list PageComponentData)
    (s : EditorState) :
  reachable initialComponents s →
  Forall is_Some (items (componentsRef_current s)).
Proof.
  induction 1 as [|s s' Hreach IH Hstep].
  - simpl. apply Forall_fmap, Forall_true. by eexists.
  - apply (step_defined s s'); [|done..].
    by apply (reachable_aligned F laws initialComponents).
Qed.

Lemma defined_aligned_reconciles (s : EditorState) :
  aligned s → Forall is_Some (items (componentsRef_current s)) →
  ∃ cs : list PageComponentData,
    items (componentsRef_current s) = Some <$> cs
    ∧ length cs = length (form_values s)
    ∧ mapFormDataToComponents (form_values s)
        (items (componentsRef_current s))
      = Ok (zip_with reconcile_entry cs (form_values s)).
Proof.
  intros [_ Hlen] Hdefined.
  destruct (defined_or_hole (items (componentsRef_current s)))
    as [[cs Hcs]|Hin].
  - exists cs. rewrite Hcs in *. rewrite length_fmap in Hlen.
    split; [done|]. split; [done|].
    apply mapFormDataToComponents_defined. lia.
  - rewrite Forall_forall in Hdefined.
    by destruct (Hdefined _ Hin) as [? ?].
Qed.

(** X13.  In every state the bridge reaches through Reorder, Remove, Add
    and Save at positions the list has, reconciling the form values with the
    reference list succeeds with one entry for each component, so
    [saveProps] never throws before it posts: it issues one POST with the
    reconciled list, and the page is reloaded when the fetch resolves. *)
Theorem reachable_state_can_be_saved
    (initialComponents : list PageComponentData) (s : EditorState) :
  reachable initialComponents s →
  ∃ reconciled : list PageComponentData,
    mapFormDataToComponents (form_values s) (items (componentsRef_current s))
    = Ok reconciled
    ∧ length reconciled = length (items (componentsRef_current s))
    ∧ ∀ (template : string) (settled : Result Response),
        saveProps template settled s
        = (s,
           EvFetch {| url := "/live/api/editor"; method := "POST";
                      redirect := "manual"; body_components := reconciled;
                      body_template := template |}
             :: match settled with
                | Ok _ => [EvReload]
                | Throw _ => []
                end,
           match settled with
           | Ok _ => Ok tt
           | Throw e => Throw e
           end).
Proof.
  intros Hreach.
  destruct (defined_aligned_reconciles s) as (cs & Hcs & Hlen & Hok).
  - by apply (reachable_aligned F laws initialComponents).
  - by apply (reachable_defined initialComponents).
  - eexists. split; [exact Hok|]. split.
    + rewrite Hcs, length_fmap. apply length_zip_with_l. lia.
    + intros template settled. by apply saveProps_events.
Qed.

(** X14.  Saving right after the first render posts the initial components
    in their order, an empty property bag read as no properties, and leaves
    the state of the hook as it is. *)
Theorem save_after_first_render (initialComponents : list PageComponentData)
    (template : string) (settled : Result Response) :
  saveProps template settled (useEditorOperations initialComponents)
  = (useEditorOperations initialComponents,
     EvFetch {| url := "/live/api/editor"; method := "POST";
                redirect := "manual";
                body_components := drop_empty_props <$> initialComponents;
                body_template := template |}
       :: match settled with
          | Ok _ => [EvReload]
          | Throw _ => []
          end,
     match settled with
     | Ok _ => Ok tt
     | Throw e => Throw e
     end).
Proof.
  apply saveProps_events. simpl.
  apply (mapFormDataToComponents_from_round_trip initialComponents [] []).
Qed.

(** X15.  Reorder at a position of the list never loses or duplicates an
    entry: the reference list and the form values it leaves are
    rearrangements of the ones before. *)
Theorem reorder_rearranges (dir : Direction) (pos : Z) (s : EditorState) :
  aligned s →
  0 ≤ pos < arr_length (componentsRef_current s) →
  items (componentsRef_current (Reorder dir pos s))
  ≡ₚ items (componentsRef_current s)
  ∧ form_values (Reorder dir pos s) ≡ₚ form_values s.
Proof.
  intros Haligned Hpos. unfold Reorder.
  rewrite rerender_aligned by (by apply (handleChangeOrder_aligned F laws)).
  destruct (decide (0 ≤ target dir pos < arr_length (componentsRef_current s)))
    as [Htarget|Htarget].
  - rewrite (handleChangeOrder_in_range F laws) by done. simpl.
    split; apply list_swap_Permutation.
  - rewrite handleChangeOrder_blocked; [done|].
    unfold bound_components. by rewrite (proj1 Haligned).
Qed.

(** X16.  Moving the entry at [pos] towards [Next] is the same as moving
    the entry at [pos + 1] towards [Prev], when both positions are in the
    list. *)
Theorem next_is_prev_of_successor (pos : Z) (s : EditorState) :
  aligned s →
  0 ≤ pos → pos + 1 < arr_length (componentsRef_current s) →
  handleChangeOrder Next pos s = handleChangeOrder Prev (pos + 1) s.
Proof.
  intros Haligned Hpos Hnext.
  rewrite !(handleChangeOrder_in_range F laws) by (simpl; done || lia).
  simpl. replace (pos + 1 - 1) with pos by lia.
  by rewrite !(list_swap_comm (Z.to_nat pos) (Z.to_nat (pos + 1))).
Qed.

(** X20.  What Save would post follows the operations: after Reorder it is
    the list Save would have posted before with the same two entries
    exchanged (or unchanged when the neighbour is out of bounds), after
    Remove that list without the entry at the index, and after Add that list
    with the new component, without properties, at its end. *)
Theorem posted_list_follows_operations (s : EditorState)
    (reconciled : list PageComponentData) :
  aligned s →
  mapFormDataToComponents (form_values s) (items (componentsRef_current s))
  = Ok reconciled →
  (∀ (dir : Direction) (pos : Z),
     0 ≤ pos < arr_length (componentsRef_current s) →
     mapFormDataToComponents (form_values (Reorder dir pos s))
       (items (componentsRef_current (Reorder dir pos s)))
     = Ok (if decide (0 ≤ target dir pos
                      < arr_length (componentsRef_current s))
           then list_swap (Z.to_nat pos) (Z.to_nat (target dir pos)) reconciled
           else reconciled))
  ∧ (∀ index : Z,
       0 ≤ index < arr_length (componentsRef_current s) →
       mapFormDataToComponents (form_values (Remove index s))
         (items (componentsRef_current (Remove index s)))
       = Ok (delete (Z.to_nat index) reconciled))
  ∧ (∀ name : string,
       mapFormDataToComponents (form_values (Add name s))
         (items (componentsRef_current (Add name s)))
       = Ok (reconciled ++ [{| component := name; props := None |}])).
Proof.
  intros Haligned Hok.
  destruct (mapFormDataToComponents_Ok_inv _ _ _ Hok) as (cs & Hcs & _ & ->).
  pose proof (proj2 Haligned) as Hlen. rewrite Hcs, length_fmap in Hlen.
  split; [|split].
  - intros dir pos Hpos. unfold Reorder.
    rewrite rerender_aligned by (by apply (handleChangeOrder_aligned F laws)).
    case_decide as Htarget.
    + rewrite (handleChangeOrder_in_range F laws) by done. simpl.
      rewrite Hcs, <- list_swap_fmap.
      rewrite mapFormDataToComponents_defined
        by (rewrite !list_swap_length; lia).
      f_equal. rewrite 2!(zip_with_zip reconcile_entry), <- list_swap_fmap.
      f_equal.
      unfold arr_length in *. rewrite Hcs, length_fmap in Hpos, Htarget.
      apply zip_list_swap; lia.
    + rewrite handleChangeOrder_blocked; [done|].
      unfold bound_components. by rewrite (proj1 Haligned).
  - intros index Hindex.
    destruct (Remove_in_range F laws index s (proj2 Haligned) Hindex)
      as (-> & -> & _).
    rewrite Hcs, <- list_fmap_delete.
    unfold arr_length in Hindex. rewrite Hcs, length_fmap in Hindex.
    rewrite mapFormDataToComponents_defined
      by (rewrite !length_delete; [lia|apply lookup_lt_is_Some_2; lia..]).
    f_equal. rewrite 2!(zip_with_zip reconcile_entry), <- list_fmap_delete.
    f_equal.
    apply zip_delete.
  - intros name. destruct (Add_appends F laws name s) as (-> & -> & _).
    rewrite Hcs.
    change [Some {| component := name; props := None |}]
      with (Some <$> [{| component := name; props := None |}]).
    rewrite <- fmap_app.
    rewrite mapFormDataToComponents_defined by (rewrite !length_app; simpl; lia).
    f_equal. by rewrite zip_with_app.
Qed.
End SaveRuns.

Lemma reachable_state_can_be_saved_witness :
  ∃ reconciled : list Editor.PageComponentData,
    Editor.mapFormDataToComponents
      (Editor.form_values
         (@Editor.Add Editor.plain_field_array "Footer"
            (Editor.useEditorOperations [Editor.sample_hero])))
      (Editor.items
         (Editor.componentsRef_current
            (@Editor.Add Editor.plain_field_array "Footer"
               (Editor.useEditorOperations [Editor.sample_hero]))))
    = Ok reconciled
    ∧ length reconciled
      = length (Editor.items
                  (Editor.componentsRef_current
                     (@Editor.Add Editor.plain_field_array "Footer"
                        (Editor.useEditorOperations [Editor.sample_hero]))))
    ∧ ∀ (template : string) (settled : Result Editor.Response),
        Editor.saveProps template settled
          (@Editor.Add Editor.plain_field_array "Footer"
             (Editor.useEditorOperations [Editor.sample_hero]))
        = (@Editor.Add Editor.plain_field_array "Footer"
             (Editor.useEditorOperations [Editor.sample_hero]),
           Editor.EvFetch
             {| Editor.url := "/live/api/editor"; Editor.method := "POST";
                Editor.redirect := "manual";
                Editor.body_components := reconciled;
                Editor.body_template := template |}
             :: match settled with
                | Ok _ => [Editor.EvReload]
                | Throw _ => []
                end,
           match settled with
           | Ok _ => Ok tt
           | Throw e => Throw e
           end).
Proof.
  apply (reachable_state_can_be_saved Editor.plain_field_array
           plain_field_array_laws [Editor.sample_hero]).
  eapply Editor.reachable_step;
    [apply Editor.reachable_init|apply Editor.step_add].
Defined.

Lemma reorder_rearranges_witness :
  Editor.items
    (Editor.componentsRef_current
       (@Editor.Reorder Editor.plain_field_array Editor.Next 0
          (Editor.useEditorOperations
             [Editor.sample_hero; Editor.sample_footer])))
  ≡ₚ [Some Editor.sample_hero; Some Editor.sample_footer]
  ∧ Editor.form_values
      (@Editor.Reorder Editor.plain_field_array Editor.Next 0
         (Editor.useEditorOperations
            [Editor.sample_hero; Editor.sample_footer]))
    ≡ₚ [[("title", JStr "Hi")]; []].
Proof.
  apply (reorder_rearranges Editor.plain_field_array plain_field_array_laws
           Editor.Next 0
           (Editor.useEditorOperations
              [Editor.sample_hero; Editor.sample_footer])).
  - split; reflexivity.
  - unfold Editor.arr_length; simpl; lia.
Defined.

Lemma next_is_prev_of_successor_witness :
  @Editor.handleChangeOrder Editor.plain_field_array Editor.Next 0
    (Editor.useEditorOperations [Editor.sample_hero; Editor.sample_footer])
  = @Editor.handleChangeOrder Editor.plain_field_array Editor.Prev (0 + 1)
      (Editor.useEditorOperations [Editor.sample_hero; Editor.sample_footer]).
Proof.
  apply (next_is_prev_of_successor Editor.plain_field_array
           plain_field_array_laws).
  - split; reflexivity.
  - lia.
  - unfold Editor.arr_length; simpl; lia.
Defined.

Lemma posted_list_follows_operations_witness :
  @Editor.mapFormDataToComponents
    (Editor.form_values
       (@Editor.Remove Editor.plain_field_array 0
          (Editor.useEditorOperations
             [Editor.sample_hero; Editor.sample_footer])))
    (Editor.items
       (Editor.componentsRef_current
          (@Editor.Remove Editor.plain_field_array 0
             (Editor.useEditorOperations
                [Editor.sample_hero; Editor.sample_footer]))))
  = Ok (delete (Z.to_nat 0) [Editor.sample_hero; Editor.sample_footer]).
Proof.
  apply (posted_list_follows_operations Editor.plain_field_array
           plain_field_array_laws
           (Editor.useEditorOperations
              [Editor.sample_hero; Editor.sample_footer])
           [Editor.sample_hero; Editor.sample_footer]).
  - split; reflexivity.
  - reflexivity.
  - unfold Editor.arr_length; simpl; lia.
Defined.

(** ** Form bridge: calls outside the list, whatever the form library does *)

Section UncheckedCalls.
Import Editor.
Context (F : FieldArray).

Lemma handleChangeOrder_past_the_end (s : EditorState) :
  components s = SameAsRef →
  0 < arr_length (componentsRef_current s) →
  items (componentsRef_current
           (handleChangeOrder Prev (arr_length (componentsRef_current s)) s))
  = <[(length (items (componentsRef_current s)) - 1)%nat := None]>
      (items (componentsRef_current s))
    ++ [arr_get (componentsRef_current s)
          (arr_length (componentsRef_current s) - 1)].
Proof.
  destruct s as [a bound values]. simpl. intros -> Hlen.
  unfold handleChangeOrder, bound_components. simpl.
  destruct (Z.ltb_spec (arr_length a - 1) 0); [lia|].
  destruct (Z.geb_spec (arr_length a - 1) (arr_length a)); [lia|]. simpl.
  assert (arr_get a (arr_length a) = None) as ->.
  { unfold arr_get. destruct (Z.ltb_spec (arr_length a) 0); [lia|].
    unfold arr_length. rewrite Nat2Z.id.
    by rewrite (proj2 (lookup_ge_None (items a) (length (items a)))). }
  rewrite (arr_set_in_range a (arr_length a - 1)) by lia.
  unfold arr_set. cbn [items named].
  destruct (Z.ltb_spec (arr_length a) 0); [lia|].
  unfold arr_length. cbn [items]. rewrite length_insert, Z.ltb_irrefl.
  cbn [items]. rewrite Nat2Z.id, Nat.sub_diag. simpl.
  do 2 f_equal. lia.
Qed.

(** X17.  [handleChangeOrder] does not check [pos]: called towards [Prev]
    from one past the end of a list that is not empty, it passes the guard,
    writes [undefined] over the last element and appends the former last
    element.  Whatever the form library did with the form values, a call of
    [saveProps] in the state this leaves throws a [TypeError] before any
    request is made, and the page is not reloaded. *)
Theorem reorder_past_the_end_blocks_save (s : EditorState) :
  components s = SameAsRef →
  0 < arr_length (componentsRef_current s) →
  let s' := handleChangeOrder Prev (arr_length (componentsRef_current s)) s in
  items (componentsRef_current s')
  = <[(length (items (componentsRef_current s)) - 1)%nat := None]>
      (items (componentsRef_current s))
    ++ [arr_get (componentsRef_current s)
          (arr_length (componentsRef_current s) - 1)]
  ∧ ∀ (template : string) (settled : Result Response),
      saveProps template settled s' = (s', [], Throw TypeError).
Proof.
  intros Hbound Hlen s'.
  pose proof (handleChangeOrder_past_the_end s Hbound Hlen) as Hitems.
  fold s' in Hitems. unfold arr_length in Hlen.
  assert (items (componentsRef_current s')
            !! (length (items (componentsRef_current s)) - 1)%nat
          = Some None) as Hhole.
  { rewrite Hitems, lookup_app_l by (rewrite length_insert; lia).
    apply list_lookup_insert_eq. lia. }
  split; [done|].
  - intros template settled. unfold saveProps, mapFormDataToComponents.
    rewrite mapFormDataToComponents_from_throws;
      [done|left; by apply list_elem_of_lookup_2 in Hhole].
Qed.

(** X18.  [handleRemoveComponent] with any integer as index: the reference
    list loses the element at that index when it has one, and keeps all its
    elements otherwise, for a negative index as for one past the end. *)
Theorem remove_drops_only_a_listed_index (removedIndex : Z)
    (s : EditorState) :
  items (componentsRef_current (handleRemoveComponent removedIndex s))
  = if decide (0 ≤ removedIndex < arr_length (componentsRef_current s))
    then delete (Z.to_nat removedIndex) (items (componentsRef_current s))
    else items (componentsRef_current s).
Proof.
  unfold handleRemoveComponent. cbn [componentsRef_current].
  destruct (decide (0 ≤ removedIndex)) as [Hpos|Hneg].
  - rewrite arr_filter_out_in_range by done.
    case_decide as Hrange; [done|].
    apply delete_past_the_end. unfold arr_length in Hrange. lia.
  - rewrite decide_False by lia. unfold arr_filter_out. cbn [items].
    apply filter_index_all. intros index _.
    destruct (Z.eqb_spec (Z.of_nat index) removedIndex); [lia|done].
Qed.
End UncheckedCalls.

Lemma reorder_past_the_end_blocks_save_witness :
  let s' := @Editor.handleChangeOrder Editor.plain_field_array Editor.Prev 2
              (Editor.useEditorOperations
                 [Editor.sample_hero; Editor.sample_footer]) in
  Editor.items (Editor.componentsRef_current s')
  = [Some Editor.sample_hero; None; Some Editor.sample_footer]
  ∧ ∀ (template : string) (settled : Result Editor.Response),
      Editor.saveProps template settled s' = (s', [], Throw TypeError).
Proof.
  intros s'. split; [reflexivity|]. intros template settled.
  apply (reorder_past_the_end_blocks_save Editor.plain_field_array
           (Editor.useEditorOperations
              [Editor.sample_hero; Editor.sample_footer])).
  - reflexivity.
  - unfold Editor.arr_length; simpl; lia.
Defined.

(** ** Form bridge: a handler of the render before a removal *)

Section StaleRender.
Import Editor.
Context (F : FieldArray) (laws : FieldArrayLaws F).

(** X19.  [handleRemoveComponent] assigns a new array to
    [componentsRef.current], while [handleChangeOrder] of the same render
    still writes to the array it was bound to.  Called after a removal and
    before the next render, it exchanges two form entries and leaves the
    reference list as the removal made it. *)
Theorem reorder_before_next_render_skips_reference_list (dir : Direction)
    (pos index : Z) (s : EditorState) :
  aligned s →
  0 ≤ index < arr_length (componentsRef_current s) →
  0 ≤ pos < arr_length (componentsRef_current s) - 1 →
  0 ≤ target dir pos < arr_length (componentsRef_current s) - 1 →
  let s' := handleChangeOrder dir pos (handleRemoveComponent index s) in
  items (componentsRef_current s')
  = delete (Z.to_nat index) (items (componentsRef_current s))
  ∧ form_values s'
    = list_swap (Z.to_nat pos) (Z.to_nat (target dir pos))
        (delete (Z.to_nat index) (form_values s)).
Proof.
  intros [Hbound Hlen] Hindex Hpos Htarget s'. subst s'.
  unfold handleChangeOrder, handleRemoveComponent, bound_components.
  cbn [components componentsRef_current form_values]. rewrite Hbound.
  destruct (Z.ltb_spec (target dir pos) 0); [lia|].
  destruct (Z.geb_spec (target dir pos) (arr_length (componentsRef_current s)));
    [lia|].
  cbn [orb componentsRef_current form_values]. split.
  - apply arr_filter_out_in_range. lia.
  - unfold arr_length in *.
    assert (is_Some (form_values s !! Z.to_nat index)) as Hentry
      by (apply lookup_lt_is_Some_2; lia).
    rewrite remove_spec by lia.
    rewrite swap_spec by (rewrite length_delete by done; lia). done.
Qed.
End StaleRender.

Lemma reorder_before_next_render_skips_reference_list_witness :
  let s' := @Editor.handleChangeOrder Editor.plain_field_array Editor.Next 0
              (@Editor.handleRemoveComponent Editor.plain_field_array 2
                 (Editor.useEditorOperations
                    [Editor.sample_hero; Editor.sample_footer;
                     Editor.sample_hero])) in
  Editor.items (Editor.componentsRef_current s')
  = [Some Editor.sample_hero; Some Editor.sample_footer]
  ∧ Editor.form_values s' = [[]; [("title", JStr "Hi")]].
Proof.
  apply (reorder_before_next_render_skips_reference_list
           Editor.plain_field_array plain_field_array_laws Editor.Next 0 2
           (Editor.useEditorOperations
              [Editor.sample_hero; Editor.sample_footer; Editor.sample_hero])).
  - split; reflexivity.
  - unfold Editor.arr_length; simpl; lia.
  - unfold Editor.arr_length; simpl; lia.
  - unfold Editor.arr_length; simpl; lia.
Defined.
